(** * The event-sourced inventory ledger of [M2_UGL_2/utils.py]

    A shallow embedding of [create_transactions_db], [get_schema] and
    [execute_sql], followed by the properties of the ledger that the
    specification states about them.

    Conventions of the embedding:
    - a Python [str] is a [string]; each [ascii] stands for the code point
      of the same number (the sources only use code points below 256);
    - a Python [int] is a [Z];
    - a Python [float] is an abstract type [F] with the operations the
      code applies to it (class [FloatOps]); nothing is assumed about
      them, except for the bounds of a price update, which rest on the
      laws of [FloatLaws];
    - [random.Random] is an abstract stream (class [RandomSource]) with the
      two primitives the standard library builds everything else from,
      under their documented ranges ([randbelow_in_range],
      [random_in_unit]) where a property needs them;
    - the SQLite store is a map from the paths of files to the databases
      they hold, of which only the [transactions] table is represented;
      a file that is not a database and the names that are not the path
      of a file ([":memory:"], the empty name) are outside it;
    - code that can raise runs in a state-and-exception monad. *)

From Stdlib Require Import ZArith List Bool Ascii String Lia QArith Qround.
From Stdlib Require Import DecimalString FinFun.
Import ListNotations.

Local Open Scope string_scope.
Local Open Scope list_scope.
Local Open Scope Z_scope.

(** String concatenation, kept apart from the [++] of lists. *)
Infix "+++" := String.append (right associativity, at level 60).

(** ** Python strings *)

Module PyStr.

(** [str.isspace] on one character, for code points below 256:
    TAB..CR, FS..US, SPACE, NEL and NBSP. *)
Definition isspace (c : ascii) : bool :=
  let n := nat_of_ascii c in
  (((9 <=? n) && (n <=? 13)) || ((28 <=? n) && (n <=? 32))
   || (n =? 133) || (n =? 160))%nat.

Fixpoint lstrip (s : string) : string :=
  match s with
  | EmptyString => EmptyString
  | String c s' => if isspace c then lstrip s' else s
  end.

Fixpoint rstrip (s : string) : string :=
  match s with
  | EmptyString => EmptyString
  | String c s' =>
      match rstrip s' with
      | EmptyString => if isspace c then EmptyString else String c EmptyString
      | r => String c r
      end
  end.

(** [s.strip()] *)
Definition strip (s : string) : string := lstrip (rstrip s).

(** [Some r] when [s] is [p] followed by [r]. *)
Fixpoint after_prefix (p s : string) : option string :=
  match p with
  | EmptyString => Some s
  | String a p' =>
      match s with
      | EmptyString => None
      | String b s' => if Ascii.eqb a b then after_prefix p' s' else None
      end
  end.

(** [s.removeprefix(p)] *)
Definition removeprefix (p s : string) : string :=
  match after_prefix p s with
  | Some r => r
  | None => s
  end.

(** [Some r] when [s] is [r] followed by [suf]. *)
Fixpoint before_suffix (suf s : string) : option string :=
  if String.eqb s suf then Some EmptyString
  else match s with
       | EmptyString => None
       | String c s' => option_map (String c) (before_suffix suf s')
       end.

(** [s.removesuffix(suf)] *)
Definition removesuffix (suf s : string) : string :=
  match before_suffix suf s with
  | Some r => r
  | None => s
  end.

Definition endswith (suf s : string) : bool :=
  match before_suffix suf s with
  | Some _ => true
  | None => false
  end.

(** [s.split()] with no argument: the maximal runs of non-space
    characters.  [cur] is the run being read, if any. *)
Fixpoint split_from (cur : option string) (s : string) : list string :=
  match s with
  | EmptyString =>
      match cur with
      | Some w => [w]
      | None => []
      end
  | String c s' =>
      if isspace c then
        match cur with
        | Some w => w :: split_from None s'
        | None => split_from None s'
        end
      else
        match cur with
        | Some w => split_from (Some (w +++ String c EmptyString)) s'
        | None => split_from (Some (String c EmptyString)) s'
        end
  end.

Definition split (s : string) : list string := split_from None s.

(** [sep.join(l)] *)
Fixpoint join (sep : string) (l : list string) : string :=
  match l with
  | [] => EmptyString
  | [x] => x
  | x :: rest => x +++ sep +++ join sep rest
  end.

(** [str(n)] for an [int]. *)
Definition str_of_int (n : Z) : string :=
  NilZero.string_of_int (Z.to_int n).

(** Every character of [s] is a space. *)
Fixpoint all_space (s : string) : bool :=
  match s with
  | EmptyString => true
  | String c s' => isspace c && all_space s'
  end.

End PyStr.
Import PyStr.

(** The query text that [execute_sql] hands to the engine (the first
    statement of its body): [query.strip().removeprefix("```sql")
    .removesuffix("```").strip()]. *)
Definition sanitize (query : string) : string :=
  strip (removesuffix "```" (removeprefix "```sql" (strip query))).

(** The line feed, written ["\n"] in the sources. *)
Definition nl : string := String (ascii_of_nat 10) EmptyString.

(** ** Exceptions and the state-and-exception monad *)

(** A raised Python exception: its class, the text [str(e)] and whether
    the class derives from [Exception] (what [except Exception] catches)
    or only from [BaseException]. *)
Record exn := mk_exn {
  exn_class : string;
  exn_message : string;
  is_Exception : bool
}.

Definition IndexError (msg : string) : exn := mk_exn "IndexError" msg true.
Definition ValueError (msg : string) : exn := mk_exn "ValueError" msg true.
Definition OperationalError (msg : string) : exn :=
  mk_exn "sqlite3.OperationalError" msg true.

Inductive outcome (A : Type) : Type :=
| Ret (a : A)
| Raise (e : exn).
Arguments Ret {A} a.
Arguments Raise {A} e.

(** A computation over a state [S]: it returns or raises, and the state it
    leaves behind is kept in both cases. *)
Definition M (S A : Type) : Type := S -> outcome A * S.

Definition ret {S A} (a : A) : M S A := fun s => (Ret a, s).
Definition raise {S A} (e : exn) : M S A := fun s => (Raise e, s).
Definition bind {S A B} (m : M S A) (k : A -> M S B) : M S B :=
  fun s =>
    match m s with
    | (Ret a, s') => k a s'
    | (Raise e, s') => (Raise e, s')
    end.

Notation "x <- m ;; k" := (bind m (fun x => k))
  (at level 61, m at next level, right associativity).
Notation "m ;;; k" := (bind m (fun _ => k))
  (at level 61, right associativity).

(** [try: body except Exception as e: handler(e)] *)
Definition try_except {S A} (body : M S A) (handler : exn -> M S A) : M S A :=
  fun s =>
    match body s with
    | (Ret a, s') => (Ret a, s')
    | (Raise e, s') =>
        if is_Exception e then handler e s' else (Raise e, s')
    end.

(** [try: body finally: final]: [final] runs on every exit of [body]; the
    outcome of [body] stands unless [final] itself raises. *)
Definition try_finally {S A} (body : M S A) (final : M S unit) : M S A :=
  fun s =>
    match body s with
    | (r, s') =>
        match final s' with
        | (Ret _, s'') => (r, s'')
        | (Raise e, s'') => (Raise e, s'')
        end
    end.

(** [l[i]] on a list, negative indices counting from the end. *)
Definition getitem {S A} (l : list A) (i : Z) : M S A :=
  let n := Z.of_nat (List.length l) in
  let j := if i <? 0 then i + n else i in
  if (j <? 0) || (n <=? j) then raise (IndexError "list index out of range")
  else match nth_error l (Z.to_nat j) with
       | Some a => ret a
       | None => raise (IndexError "list index out of range")
       end.

(** [range(a, b)] *)
Definition range (a b : Z) : list Z :=
  map (fun i => a + Z.of_nat i) (List.seq 0 (Z.to_nat (b - a))).

(** ** Floats and the random stream *)

(** The operations the code applies to [float]s. *)
Class FloatOps (F : Type) := {
  float_of : Q -> F;          (* the value of a decimal literal *)
  fadd : F -> F -> F;
  fsub : F -> F -> F;
  fmul : F -> F -> F;
  flt : F -> F -> bool;       (* [x < y] *)
  round2 : F -> F;            (* [round(x, 2)] *)
  repr : F -> string          (* how an f-string prints [x] *)
}.

(** [max(a, b)]: [b] when [b > a], else [a]. *)
Definition py_max {F} `{FloatOps F} (a b : F) : F :=
  if flt a b then b else a.

(** What the bounds of the generator use of IEEE 754 doubles, of the
    reading of decimal literals and of [round]: a literal is read by its
    value; [<] is asymmetric; reading a literal, adding to a number,
    multiplying by a number that is not negative and rounding keep the
    order; sums, differences and products of integers are exact up to
    [2^53], and [round] leaves an integer as it is.  They are stated
    with [flt y x = false], which on numbers reads [x <= y]. *)
Record FloatLaws (F : Type) `{FloatOps F} : Prop := {
  float_of_value :
    forall x y : Q, (x == y)%Q -> float_of x = float_of y;
  float_of_mono :
    forall x y : Q, (x <= y)%Q -> flt (float_of y) (float_of x) = false;
  flt_asym :
    forall x y : F, flt x y = true -> flt y x = false;
  fadd_mono :
    forall a x y : F, flt y x = false -> flt (fadd a y) (fadd a x) = false;
  fmul_mono :
    forall c x y : F,
      flt c (float_of 0) = false ->
      flt y x = false -> flt (fmul c y) (fmul c x) = false;
  round2_mono :
    forall x y : F, flt y x = false -> flt (round2 y) (round2 x) = false;
  fadd_int :
    forall a b : Z,
      Z.abs a <= 2 ^ 53 -> Z.abs b <= 2 ^ 53 -> Z.abs (a + b) <= 2 ^ 53 ->
      fadd (float_of (inject_Z a)) (float_of (inject_Z b))
      = float_of (inject_Z (a + b));
  fsub_int :
    forall a b : Z,
      Z.abs a <= 2 ^ 53 -> Z.abs b <= 2 ^ 53 -> Z.abs (a - b) <= 2 ^ 53 ->
      fsub (float_of (inject_Z a)) (float_of (inject_Z b))
      = float_of (inject_Z (a - b));
  fmul_nat :
    forall a b : Z,
      0 <= a -> 0 <= b -> a * b <= 2 ^ 53 ->
      fmul (float_of (inject_Z a)) (float_of (inject_Z b))
      = float_of (inject_Z (a * b));
  round2_int :
    forall a : Z,
      Z.abs a <= 2 ^ 53 ->
      round2 (float_of (inject_Z a)) = float_of (inject_Z a)
}.

(** The two primitives of [random.Random]: [_randbelow(n)], which the
    integer methods use, and [random()], which the float methods use. *)
Class RandomSource (F : Type) := {
  rng_state : Type;
  Random : Z -> rng_state;                       (* [random.Random(seed)] *)
  randbelow : Z -> rng_state -> Z * rng_state;
  random : rng_state -> F * rng_state
}.

(** What the standard library guarantees of [_randbelow]. *)
Definition randbelow_in_range {F} `{RandomSource F} : Prop :=
  forall n s, 0 < n -> 0 <= fst (randbelow n s) < n.

(** What the standard library guarantees of [random()]:
    [0.0 <= x < 1.0]. *)
Definition random_in_unit {F} `{FloatOps F} `{RandomSource F} : Prop :=
  forall s,
    flt (fst (random s)) (float_of 0) = false
    /\ flt (fst (random s)) (float_of 1) = true.

(** ** The store *)

(** [CURRENT_TIMESTAMP], as SQLite writes it. *)
Definition Timestamp : Type := string.

(** One row of [transactions]; the fields are the columns of the table. *)
Record Event (F : Type) := mk_event {
  id : Z;
  product_id : Z;
  product_name : string;
  brand : string;
  category : string;
  color : string;
  action : string;
  qty_delta : Z;
  unit_price : option F;
  notes : option string;
  ts : Timestamp
}.
Arguments mk_event {F}.
Arguments id {F}.
Arguments product_id {F}.
Arguments product_name {F}.
Arguments brand {F}.
Arguments category {F}.
Arguments color {F}.
Arguments action {F}.
Arguments qty_delta {F}.
Arguments unit_price {F}.
Arguments notes {F}.
Arguments ts {F}.

(** A column as declared by [CREATE TABLE] and reported by
    [PRAGMA table_info]. *)
Record column := mk_column {
  col_name : string;
  col_type : string;
  col_notnull : bool;
  col_default : option string;
  col_pk : bool
}.

(** A table: its declaration, its rows in rowid order and the largest
    rowid it ever used (what [AUTOINCREMENT] keeps in [sqlite_sequence]). *)
Record table (F : Type) := mk_table {
  columns : list column;
  rows : list (Event F);
  sqlite_seq : Z
}.
Arguments mk_table {F}.
Arguments columns {F}.
Arguments rows {F}.
Arguments sqlite_seq {F}.

(** A database file; only its [transactions] table is represented. *)
Record Database (F : Type) := mk_db {
  transactions : option (table F)
}.
Arguments mk_db {F}.
Arguments transactions {F}.

(** An open [sqlite3] connection. *)
Record Connection := mk_conn {
  conn_id : nat;
  conn_path : string
}.

(** The world outside the program: the database files, which paths can be
    opened, the connections open at the moment, the wall clock (its
    successive readings and how many were taken) and what was printed.
    [files] maps the path of a file to the SQLite database it holds: a
    file that is not a database, on which the first statement after
    [sqlite3.connect] raises [sqlite3.DatabaseError], has no place in it. *)
Record World (F : Type) := mk_world {
  files : string -> option (Database F);
  can_open : string -> bool;
  open_conns : list nat;
  next_conn : nat;
  wall_clock : nat -> Timestamp;
  ticks : nat;
  stdout : list string
}.
Arguments mk_world {F}.
Arguments files {F}.
Arguments can_open {F}.
Arguments open_conns {F}.
Arguments next_conn {F}.
Arguments wall_clock {F}.
Arguments ticks {F}.
Arguments stdout {F}.

(** A scalar in a query result. *)
Inductive value (F : Type) : Type :=
| VNull
| VInt (z : Z)
| VReal (x : F)
| VText (s : string).
Arguments VNull {F}.
Arguments VInt {F} z.
Arguments VReal {F} x.
Arguments VText {F} s.

(** A [pandas.DataFrame]: column names and rows, both in order. *)
Record DataFrame (F : Type) := mk_df {
  df_columns : list string;
  df_rows : list (list (value F))
}.
Arguments mk_df {F}.
Arguments df_columns {F}.
Arguments df_rows {F}.

(** [pandas.read_sql_query] on an open connection: the SQL engine itself is
    outside the repository.  It returns a frame or raises, and says what
    the database file holds once the connection is closed. *)
Class SqlEngine (F : Type) := {
  read_sql_query : string -> Database F -> outcome (DataFrame F) * Database F
}.

Definition set_file {F} (fs : string -> option (Database F))
    (path : string) (db : Database F) : string -> option (Database F) :=
  fun p => if String.eqb p path then Some db else fs p.

Definition empty_db {F} : Database F := mk_db None.

(** The database a connection sees. *)
Definition db_of {F} (w : World F) (c : Connection) : Database F :=
  match files w (conn_path c) with
  | Some db => db
  | None => empty_db
  end.

(** The names that [sqlite3.connect] takes as the path of a file.  The
    two others, [":memory:"] and the empty name, give every connection a
    database of its own, which is gone when the connection is closed. *)
Definition file_path (name : string) : bool :=
  negb (String.eqb name ":memory:") && negb (String.eqb name "").

(** [sqlite3.connect(path)] at the path of a file: opens the file,
    creating an empty database when there is none; raises when the path
    cannot be opened.  A name that is not a [file_path] is treated as one
    here, so what is said of the content of a store after a call is said
    under [file_path]. *)
Definition connect {F} (path : string) : M (World F) Connection :=
  fun w =>
    if can_open w path then
      let c := mk_conn (next_conn w) path in
      (Ret c,
       mk_world
         (match files w path with
          | Some _ => files w
          | None => set_file (files w) path empty_db
          end)
         (can_open w) (next_conn w :: open_conns w) (S (next_conn w))
         (wall_clock w) (ticks w) (stdout w))
    else (Raise (OperationalError "unable to open database file"), w).

(** [conn.close()] *)
Definition close {F} (c : Connection) : M (World F) unit :=
  fun w =>
    (Ret tt,
     mk_world (files w) (can_open w)
       (List.filter (fun h => negb (Nat.eqb h (conn_id c))) (open_conns w))
       (next_conn w) (wall_clock w) (ticks w) (stdout w)).

(** Replace the database file behind a connection. *)
Definition write_db {F} (c : Connection) (db : Database F) : M (World F) unit :=
  fun w =>
    (Ret tt,
     mk_world (set_file (files w) (conn_path c) db) (can_open w)
       (open_conns w) (next_conn w) (wall_clock w) (ticks w) (stdout w)).

(** [print(line)] *)
Definition print {F} (line : string) : M (World F) unit :=
  fun w =>
    (Ret tt,
     mk_world (files w) (can_open w) (open_conns w) (next_conn w)
       (wall_clock w) (ticks w) (stdout w ++ [line])).

(** ** [random.Random]: the methods the generator calls *)

Section RandomMethods.
Context {F : Type} {FO : FloatOps F} {RS : RandomSource F}.

(** [rng.choice(seq)]: [seq[_randbelow(len(seq))]]. *)
Definition choice {A} (seq : list A) : M rng_state A :=
  fun s =>
    match seq with
    | [] => (Raise (IndexError "Cannot choose from an empty sequence"), s)
    | _ =>
        let (i, s') := randbelow (Z.of_nat (List.length seq)) s in
        getitem seq i s'
    end.

(** [rng.randint(a, b)]: [a + _randbelow(b + 1 - a)]. *)
Definition randint (a b : Z) : M rng_state Z :=
  fun s =>
    let width := b + 1 - a in
    if 0 <? width then
      let (r, s') := randbelow width s in (Ret (a + r), s')
    else (Raise (ValueError "empty range for randint"), s).

(** [rng.uniform(a, b)]: [a + (b - a) * random()]. *)
Definition uniform (a b : F) : M rng_state F :=
  fun s =>
    let (u, s') := random s in (Ret (fadd a (fmul (fsub b a) u)), s').

(** [itertools.accumulate(weights)] *)
Fixpoint accumulate_from (acc : F) (ws : list F) : list F :=
  match ws with
  | [] => []
  | w :: rest => let acc' := fadd acc w in acc' :: accumulate_from acc' rest
  end.

Definition accumulate (ws : list F) : list F :=
  match ws with
  | [] => []
  | w :: rest => w :: accumulate_from w rest
  end.

(** [bisect.bisect(a, x, lo, hi)]: the loop halves [hi - lo], so that many
    rounds are enough.  Every [mid] it reads lies below [hi]. *)
Fixpoint bisect_loop (rounds : nat) (a : list F) (x : F) (lo hi : nat) : nat :=
  match rounds with
  | O => lo
  | S rounds' =>
      if (lo <? hi)%nat then
        let mid := ((lo + hi) / 2)%nat in
        if flt x (nth mid a x) then bisect_loop rounds' a x lo mid
        else bisect_loop rounds' a x (mid + 1)%nat hi
      else lo
  end.

Definition bisect (a : list F) (x : F) (lo hi : nat) : nat :=
  bisect_loop (hi - lo) a x lo hi.

(** [rng.choices(population, weights=weights, k=1)[0]].  The checks that
    [choices] makes on the total weight (positive, finite) are left out:
    the weights of the only call are literals. *)
Definition choices1 {A} (population : list A) (weights : list F) : M rng_state A :=
  fun s =>
    let n := List.length population in
    let cum_weights := accumulate weights in
    if negb (Nat.eqb (List.length cum_weights) n) then
      (Raise (ValueError "The number of weights does not match the population"), s)
    else
      let total := fadd (last cum_weights (float_of 0)) (float_of 0) in
      let hi := (n - 1)%nat in
      let (u, s') := random s in
      getitem population (Z.of_nat (bisect cum_weights (fmul u total) 0 hi)) s'.

End RandomMethods.

(** ** The generator: [create_transactions_db] *)

(** An entry of [product_catalog]. *)
Record product (F : Type) := mk_product {
  p_pid : Z;
  p_name : string;
  p_brand : string;
  p_category : string;
  p_color : string;
  p_base_price : F
}.
Arguments mk_product {F}.
Arguments p_pid {F}.
Arguments p_name {F}.
Arguments p_brand {F}.
Arguments p_category {F}.
Arguments p_color {F}.
Arguments p_base_price {F}.

Definition brands : list string :=
  ["Nike"; "Adidas"; "Puma"; "Reebok"; "New Balance"].
Definition categories : list string :=
  ["shoes"; "hoodie"; "t-shirt"; "hat"; "backpack"].
Definition colors : list string :=
  ["black"; "white"; "red"; "blue"; "green"].

(** The table that [CREATE TABLE transactions (...)] declares. *)
Definition transactions_columns : list column :=
  [ mk_column "id" "INTEGER" false None true;
    mk_column "product_id" "INTEGER" true None false;
    mk_column "product_name" "TEXT" true None false;
    mk_column "brand" "TEXT" true None false;
    mk_column "category" "TEXT" true None false;
    mk_column "color" "TEXT" true None false;
    mk_column "action" "TEXT" true None false;
    mk_column "qty_delta" "INTEGER" false (Some "0") false;
    mk_column "unit_price" "REAL" false None false;
    mk_column "notes" "TEXT" false None false;
    mk_column "ts" "DATETIME" false (Some "CURRENT_TIMESTAMP") false ].

Definition new_transactions {F} : table F :=
  mk_table transactions_columns [] 0.

(** What the loops of the generator read and write: the random stream, the
    [transactions] table behind the cursor (rows not yet committed),
    and the clock. *)
Record gen_state (F : Type) {RS : RandomSource F} := mk_gen {
  g_rng : rng_state;
  g_table : table F;
  g_clock : nat -> Timestamp;
  g_ticks : nat
}.
Arguments mk_gen {F RS}.
Arguments g_rng {F RS}.
Arguments g_table {F RS}.
Arguments g_clock {F RS}.
Arguments g_ticks {F RS}.

Section Generator.
Context {F : Type} {FO : FloatOps F} {RS : RandomSource F}.

(** A method call on [rng]. *)
Definition draw {A} (m : M rng_state A) : M (gen_state F) A :=
  fun g =>
    match m (g_rng g) with
    | (r, s') => (r, mk_gen s' (g_table g) (g_clock g) (g_ticks g))
    end.

(** [cur.execute("INSERT INTO transactions (product_id, product_name,
    brand, category, color, action, qty_delta, unit_price, notes)
    VALUES (...)")]: the row gets the next rowid and the time of the
    insertion. *)
Definition insert_event (p : product F) (act : string) (qty : Z)
    (price : option F) (note : string) : M (gen_state F) unit :=
  fun g =>
    let t := g_table g in
    let rowid := sqlite_seq t + 1 in
    let row :=
      mk_event rowid (p_pid p) (p_name p) (p_brand p) (p_category p)
        (p_color p) act qty price (Some note) (g_clock g (g_ticks g)) in
    (Ret tt,
     mk_gen (g_rng g) (mk_table (columns t) (rows t ++ [row]) rowid)
       (g_clock g) (S (g_ticks g))).

(** The body of the first loop: one catalog entry. *)
Definition make_product (pid : Z) : M (gen_state F) (product F) :=
  b <- draw (choice brands) ;;
  c <- draw (choice categories) ;;
  let name := b +++ " " +++ c in
  brand <- getitem (split name) 0 ;;
  category <- getitem (split name) 1 ;;
  color <- draw (choice colors) ;;
  u <- draw (uniform (float_of 20.0) (float_of 150.0)) ;;
  let base_price := round2 u in
  ret (mk_product pid name brand category color base_price).

Fixpoint make_catalog (pids : list Z) : M (gen_state F) (list (product F)) :=
  match pids with
  | [] => ret []
  | pid :: rest =>
      p <- make_product pid ;;
      ps <- make_catalog rest ;;
      ret (p :: ps)
  end.

(** The body of the follow-up loop; it returns [current_price] as the
    iteration leaves it. *)
Definition followup (p : product F) (current_price : F) : M (gen_state F) F :=
  event_type <- draw (choices1 ["restock"; "sale"; "price_update"]
                        [float_of 0.25; float_of 0.6; float_of 0.15]) ;;
  if String.eqb event_type "restock" then
    qty <- draw (randint 1 25) ;;
    insert_event p "restock" qty None
      ("Restock +" +++ str_of_int qty +++ " units") ;;;
    ret current_price
  else if String.eqb event_type "sale" then
    r <- draw (randint 1 10) ;;
    let qty := - r in
    insert_event p "sale" qty (Some current_price)
      ("Sale " +++ str_of_int (- qty) +++ " units at " +++ repr current_price) ;;;
    ret current_price
  else
    u <- draw (uniform (float_of (-5.0)) (float_of 5.0)) ;;
    let delta := round2 u in
    let current_price := py_max (float_of 1.0) (round2 (fadd current_price delta)) in
    insert_event p "price_update" 0 (Some current_price)
      ("Price update to " +++ repr current_price) ;;;
    ret current_price.

(** [for _ in range(n): ...] over the follow-up body. *)
Fixpoint followups (n : nat) (p : product F) (current_price : F)
  : M (gen_state F) F :=
  match n with
  | O => ret current_price
  | S n' =>
      current_price' <- followup p current_price ;;
      followups n' p current_price'
  end.

(** The body of the second loop: the events of one product. *)
Definition seed_product (n_txns_per_product : Z) (p : product F)
  : M (gen_state F) unit :=
  initial_stock <- draw (randint 5 50) ;;
  insert_event p "insert" initial_stock (Some (p_base_price p))
    ("Initial insert with stock=" +++ str_of_int initial_stock
     +++ ", price=" +++ repr (p_base_price p)) ;;;
  let current_price := p_base_price p in
  followups (Z.to_nat (n_txns_per_product - 1)) p current_price ;;;
  ret tt.

Fixpoint seed_events (n_txns_per_product : Z) (catalog : list (product F))
  : M (gen_state F) unit :=
  match catalog with
  | [] => ret tt
  | p :: rest =>
      seed_product n_txns_per_product p ;;;
      seed_events n_txns_per_product rest
  end.

(** Everything between [rng = random.Random(42)] and [conn.commit()]. *)
Definition generate (n_products n_txns_per_product : Z) : M (gen_state F) unit :=
  product_catalog <- make_catalog (range 1 (n_products + 1)) ;;
  seed_events n_txns_per_product product_catalog.

(** [cur.execute("DROP TABLE IF EXISTS transactions")] *)
Definition drop_transactions (c : Connection) : M (World F) unit :=
  fun w => write_db c (mk_db None) w.

(** [cur.execute("CREATE TABLE transactions (...)")] *)
Definition create_transactions (c : Connection) : M (World F) unit :=
  fun w =>
    match transactions (db_of w c) with
    | Some _ =>
        (Raise (OperationalError "table transactions already exists"), w)
    | None => write_db c (mk_db (Some new_transactions)) w
    end.

(** The two loops, run on the cursor of the connection, whose table was
    just created: the inserted rows stay pending in the generator state
    until the commit. *)
Definition run_generator (n_products n_txns_per_product : Z)
  : M (World F) (table F) :=
  fun w =>
    match generate n_products n_txns_per_product
            (mk_gen (Random 42) new_transactions (wall_clock w) (ticks w)) with
    | (r, g) =>
        let w' := mk_world (files w) (can_open w) (open_conns w) (next_conn w)
                    (wall_clock w) (g_ticks g) (stdout w) in
        match r with
        | Ret _ => (Ret (g_table g), w')
        | Raise e => (Raise e, w')
        end
    end.

Definition create_transactions_db (db_name : string)
    (n_products n_txns_per_product : Z) : M (World F) unit :=
  conn <- connect db_name ;;
  drop_transactions conn ;;;
  create_transactions conn ;;;
  pending <- run_generator n_products n_txns_per_product ;;
  (* conn.commit() *)
  write_db conn (mk_db (Some pending)) ;;;
  close conn ;;;
  print ("SQLite database '" +++ db_name
         +++ "' created with a single 'transactions' table (event-sourced).").

End Generator.

(** ** The query gateway: [get_schema] and [execute_sql] *)

Section Gateway.
Context {F : Type} {SE : SqlEngine F}.

(** [cur.execute("PRAGMA table_info(transactions)")] and [cur.fetchall()]:
    one row per declared column, in declaration order; no row when the
    table does not exist.  [r[1]] is [col_name] and [r[2]] is [col_type].
    On the databases of a [World] the statement returns; where it raises
    (a file that is not a database), [get_schema] has no [finally] and
    leaves its connection open, which is not represented here. *)
Definition table_info (c : Connection) : M (World F) (list column) :=
  fun w =>
    match transactions (db_of w c) with
    | Some t => (Ret (columns t), w)
    | None => (Ret [], w)
    end.

Definition get_schema (db_path : string) : M (World F) string :=
  conn <- connect db_path ;;
  rows <- table_info conn ;;
  close conn ;;;
  ret ("table name: transactions" +++ nl +++
       join nl (map (fun r => col_name r +++ " (" +++ col_type r +++ ")") rows)).

(** [pd.read_sql_query(q, conn)] *)
Definition pd_read_sql_query (q : string) (c : Connection)
  : M (World F) (DataFrame F) :=
  fun w =>
    let (r, db') := read_sql_query q (db_of w c) in
    (r,
     mk_world (set_file (files w) (conn_path c) db') (can_open w)
       (open_conns w) (next_conn w) (wall_clock w) (ticks w) (stdout w)).

(** [pd.DataFrame({"error": [str(e)]})] *)
Definition error_frame (e : exn) : DataFrame F :=
  mk_df ["error"] [[VText (exn_message e)]].

Definition execute_sql (query db_path : string) : M (World F) (DataFrame F) :=
  let q := sanitize query in
  conn <- connect db_path ;;
  try_finally
    (try_except (pd_read_sql_query q conn) (fun e => ret (error_frame e)))
    (close conn).

End Gateway.

(** ** Reading the ledger *)

(** The ledger a store holds at [path]: the rows of its [transactions]
    table. *)
Definition ledger {F} (w : World F) (path : string) : option (list (Event F)) :=
  match files w path with
  | Some db =>
      match transactions db with
      | Some t => Some (rows t)
      | None => None
      end
  | None => None
  end.

(** A row without its [ts] column. *)
Definition without_ts {F} (e : Event F) : Event F :=
  mk_event (id e) (product_id e) (product_name e) (brand e) (category e)
    (color e) (action e) (qty_delta e) (unit_price e) (notes e) "".

(** Stock of product [p] at cutoff [t]: the sum of [qty_delta] over its
    events with [id <= t]. *)
Fixpoint stock {F} (log : list (Event F)) (p t : Z) : Z :=
  match log with
  | [] => 0
  | e :: rest =>
      (if (product_id e =? p) && (id e <=? t) then qty_delta e else 0)
      + stock rest p t
  end.

(** ** Concrete instances, to run the model *)

(** Exact rationals in the place of doubles: decimal literals are exact,
    [round2] rounds half up to hundredths, [repr] prints a fraction. *)
#[local] Instance exact_floats : FloatOps Q := {|
  float_of := Qred;
  fadd := fun a b => Qred (a + b);
  fsub := fun a b => Qred (a - b);
  fmul := fun a b => Qred (a * b);
  flt := fun a b => match (a ?= b)%Q with Lt => true | _ => false end;
  round2 := fun a => Qred (Qmake (Qfloor (a * 100 + 0.5)) 100);
  repr := fun a => str_of_int (Qnum a) +++ "/" +++ str_of_int (Z.pos (Qden a))
|}.

(** A linear congruential stream. *)
Definition lcg_next (s : Z) : Z := (s * 1103515245 + 12345) mod 2147483648.

#[local] Instance lcg : RandomSource Q := {|
  rng_state := Z;
  Random := fun seed => seed;
  randbelow := fun n s => ((lcg_next s / 65536) mod n, lcg_next s);
  random := fun s => (Qred (Qmake (lcg_next s / 65536 mod 1000) 1000), lcg_next s)
|}.

(** A stream that counts its draws: the fifth draw (the opening stock of
    the first product) is the least value, every other integer draw the
    greatest, and every float draw is one half. *)
Definition low_stock : RandomSource Q := {|
  rng_state := Z;
  Random := fun _ => 0;
  randbelow := fun n s => (if s =? 4 then 0 else n - 1, s + 1);
  random := fun s => (0.5%Q, s + 1)
|}.

(** A stream whose first float draw is [first] and whose other float
    draws are [rest]; every integer draw is the greatest value. *)
Definition float_script (first rest : Q) : RandomSource Q := {|
  rng_state := Z;
  Random := fun _ => 0;
  randbelow := fun n s => (n - 1, s + 1);
  random := fun s => (if s =? 0 then first else rest, s + 1)
|}.

(** An engine that knows one query. *)
#[local] Instance one_query_engine : SqlEngine Q := {|
  read_sql_query := fun q db =>
    if String.eqb q "SELECT 1" then (Ret (mk_df ["1"] [[VInt 1]]), db)
    else (Raise (mk_exn "pandas.errors.DatabaseError"
                   ("Execution failed on sql '" +++ q +++ "'") true), db)
|}.

(** A world with no file, where every path can be opened and the clock
    stands still at [now]. *)
Definition empty_world (now : Timestamp) : World Q :=
  mk_world (fun _ => None) (fun _ => true) [] 0 (fun _ => now) 0 [].

(** ** The notebook card: [print_html] *)

(** The double quote, which the sources write inside single-quoted
    strings. *)
Definition dq : string := String (ascii_of_nat 34) EmptyString.

(** [s.replace(old, new)] for a pattern [old] of one character. *)
Fixpoint replace_char (old : ascii) (new s : string) : string :=
  match s with
  | EmptyString => EmptyString
  | String c rest =>
      if Ascii.eqb c old then new +++ replace_char old new rest
      else String c (replace_char old new rest)
  end.

(** [html.escape(s)], with its default [quote=True]: the ampersand
    first, then the angle brackets, then the two quotes. *)
Definition html_escape (s : string) : string :=
  let s := replace_char "&" "&amp;" s in
  let s := replace_char "<" "&lt;" s in
  let s := replace_char ">" "&gt;" s in
  let s := replace_char (ascii_of_nat 34) "&quot;" s in
  replace_char "'" "&#x27;" s.

(** What [print_html] takes from outside the repository: the style sheet
    (a constant of the source, with characters beyond the ones a [string]
    holds here) and [base64.b64encode(...).decode("utf-8")]. *)
Class Notebook := {
  css : string;
  b64encode : string -> string
}.

(** The notebook seen from [print_html]: the files it can read and
    the HTML displayed so far. *)
Record Shell := mk_shell {
  file_bytes : string -> option string;
  displayed : list string
}.

(** The [content] argument, by the type tests of the function: a [str], a
    [DataFrame] or a [Series] (with the HTML that pandas' [to_html] gives
    for the arguments of the call), or anything else (with its [str]). *)
Inductive content : Type :=
| CStr (s : string)
| CDataFrame (to_html : string)
| CSeries (to_html : string)
| COther (str : string).

Section PrintHtml.
Context {NB : Notebook}.

(** The nested [image_to_base64]: [open] raises when the file is
    missing. *)
Definition image_to_base64 (image_path : string) : M Shell string :=
  fun sh =>
    match file_bytes sh image_path with
    | Some bytes => (Ret (b64encode bytes), sh)
    | None =>
        (Raise (mk_exn "FileNotFoundError"
                  ("[Errno 2] No such file or directory: '" +++ image_path +++ "'")
                  true), sh)
    end.

(** [display(HTML(html))] *)
Definition display (html : string) : M Shell unit :=
  fun sh => (Ret tt, mk_shell (file_bytes sh) (displayed sh ++ [html])).

Definition print_html (c : content) (title : option string) (is_image : bool)
  : M Shell unit :=
  rendered <-
    match is_image, c with
    | true, CStr path =>
        b64 <- image_to_base64 path ;;
        ret ("<img src=" +++ dq +++ "data:image/png;base64," +++ b64 +++ dq
             +++ " alt=" +++ dq +++ "Image" +++ dq
             +++ " style=" +++ dq
             +++ "max-width:100%; height:auto; border-radius:8px;" +++ dq
             +++ ">")
    | _, CDataFrame html => ret html
    | _, CSeries html => ret html
    | _, CStr s => ret ("<pre><code>" +++ html_escape s +++ "</code></pre>")
    | _, COther s => ret ("<pre><code>" +++ html_escape s +++ "</code></pre>")
    end ;;
  let title_html :=
    match title with
    | Some (String a t) =>
        "<div class=" +++ dq +++ "pretty-title" +++ dq +++ ">"
        +++ String a t +++ "</div>"
    | _ => ""
    end in
  let card :=
    "<div class=" +++ dq +++ "pretty-card" +++ dq +++ ">"
    +++ title_html +++ rendered +++ "</div>" in
  display (css +++ card).

End PrintHtml.

(** ** [ensure_execute_python_tags] of [M2_GUL_1/utils.py] *)

(** [sub in s] for strings. *)
Fixpoint contains (sub s : string) : bool :=
  match after_prefix sub s with
  | Some _ => true
  | None =>
      match s with
      | EmptyString => false
      | String _ rest => contains sub rest
      end
  end.

(** The first alternative of the pattern, which can only match at the
    start of the text: the opening fence, the word [python] if it
    follows, and all the spaces after it. *)
Definition sub_opening_fence (text : string) : string :=
  match after_prefix "```" text with
  | Some r => lstrip (removeprefix "python" r)
  | None => text
  end.

(** The second alternative, which can only match at the end of the text
    ([$] also matches before a line feed that ends the text): a fence
    and all the spaces before it. *)
Definition sub_closing_fence (text : string) : string :=
  match before_suffix "```" text with
  | Some b => rstrip b
  | None =>
      match before_suffix ("```" +++ nl) text with
      | Some b => rstrip b +++ nl
      | None => text
      end
  end.

(** [re.sub(r"^```(?:python)?\s*|\s*```$", "", text)]: the matches are
    found from left to right, so the opening fence goes first and the
    closing fence is looked for in what follows it. *)
Definition sub_fences (text : string) : string :=
  match after_prefix "```" text with
  | Some r => sub_closing_fence (lstrip (removeprefix "python" r))
  | None => sub_closing_fence text
  end.

Definition ensure_execute_python_tags (text : string) : string :=
  let text := strip text in
  let text := strip (sub_fences text) in
  if negb (contains "<execute_python>" text) then
    "<execute_python>" +++ nl +++ text +++ nl +++ "</execute_python>"
  else text.

(** ** [parse_input] of [M3_assignment/research_tools.py] *)

(** A chat message, as a dict or as an object: [role] and [content] are
    [None] when the key or attribute is missing. *)
Record message := mk_message {
  role : option string;
  content_of : option string
}.

(** The argument of [parse_input]: a list of messages, or anything else
    (with its [str]). *)
Inductive report_input : Type :=
| Messages (ms : list message)
| Text (str : string).

(** [role == "assistant" and content]: the content is there and not
    empty. *)
Definition assistant_text (m : message) : option string :=
  match role m, content_of m with
  | Some r, Some (String a c) =>
      if String.eqb r "assistant" then Some (String a c) else None
  | _, _ => None
  end.

(** The loop: the first message of [ms] that has an assistant text. *)
Fixpoint first_assistant_text (ms : list message) : option string :=
  match ms with
  | [] => None
  | m :: rest =>
      match assistant_text m with
      | Some c => Some c
      | None => first_assistant_text rest
      end
  end.

Definition parse_input (text_or_messages : report_input) : outcome string :=
  match text_or_messages with
  | Messages ms =>
      match first_assistant_text (rev ms) with
      | Some text_report => Ret text_report
      | None => Raise (ValueError "No assistant text found in messages.")
      end
  | Text s => Ret s
  end.

(** ** Sample runs *)

(** The world after generating two products with four events each, from
    the linear congruential stream, and the ledger it holds. *)
Definition sample_world : World Q :=
  snd (@create_transactions_db Q exact_floats lcg "products.db" 2 4
         (empty_world "2025-01-01 00:00:00")).

Definition sample_log : list (Event Q) :=
  match ledger sample_world "products.db" with
  | Some log => log
  | None => []
  end.

(** The row at position [i] of the sample ledger. *)
Definition sample_event (i : nat) : Event Q :=
  nth i sample_log (mk_event 0 0 "" "" "" "" "" 0 None None "").

(** A world where no path can be opened. *)
Definition closed_world : World Q :=
  mk_world (fun _ => None) (fun _ => false) [] 0
    (fun _ => "2025-01-01 00:00:00") 0 [].

(** A notebook with a short style sheet, whose encoder leaves the bytes as
    they are, and a shell with no file and nothing displayed. *)
#[local] Instance plain_notebook : Notebook := {|
  css := "<style></style>";
  b64encode := fun bytes => bytes
|}.

Definition empty_shell : Shell := mk_shell (fun _ => None) [].

(** ** Vocabulary of the properties *)

(** [m] returns from every state that satisfies [P], with a result and a
    final state that satisfy [Q]. *)
Definition returns {S A} (P : S -> Prop) (m : M S A) (Q : A -> S -> Prop) : Prop :=
  forall s, P s -> exists a s', m s = (Ret a, s') /\ Q a s'.

(** What a row of each kind carries. *)
Definition row_shape {F} (e : Event F) : Prop :=
  (action e = "insert" /\ 5 <= qty_delta e <= 50 /\ unit_price e <> None)
  \/ (action e = "restock" /\ 1 <= qty_delta e <= 25 /\ unit_price e = None)
  \/ (action e = "sale" /\ -10 <= qty_delta e <= -1 /\ unit_price e <> None)
  \/ (action e = "price_update" /\ qty_delta e = 0 /\ unit_price e <> None).

(** The table holds an event of product [pid]. *)
Definition has_product {F} (pid : Z) (t : table F) : Prop :=
  exists e, In e (rows t) /\ product_id e = pid.

(** What the generator keeps true of the table it fills: the declaration
    is the one of [CREATE TABLE], every row has one of the four shapes,
    the rowids are 1, 2, ... up to the counter, in this order, and every
    row that is not an [insert] comes after another row of its product. *)
Definition ledger_inv {F} (t : table F) : Prop :=
  columns t = transactions_columns
  /\ Forall row_shape (rows t)
  /\ map id (rows t) = range 1 (sqlite_seq t + 1)
  /\ 0 <= sqlite_seq t
  /\ (forall e, In e (rows t) ->
        action e = "insert"
        \/ exists e', In e' (rows t)
                      /\ product_id e' = product_id e /\ id e' < id e).

(** A property of the table that no [INSERT] can undo. *)
Definition kept_by_inserts {F} (J : table F -> Prop) : Prop :=
  forall t e n, J t -> J (mk_table (columns t) (rows t ++ [e]) n).

(** The invariant, together with such a property. *)
Definition ledger_inv_with {F} (J : table F -> Prop) (t : table F) : Prop :=
  ledger_inv t /\ J t.

(** Two generator states that agree on everything but the clock and the
    [ts] column; when [same_clock] holds they also agree on the readings
    the clock will give, and on [ts]. *)
Definition agree {F} {RS : RandomSource F} (same_clock : Prop)
    (g1 g2 : gen_state F) : Prop :=
  g_rng g1 = g_rng g2
  /\ columns (g_table g1) = columns (g_table g2)
  /\ sqlite_seq (g_table g1) = sqlite_seq (g_table g2)
  /\ map without_ts (rows (g_table g1)) = map without_ts (rows (g_table g2))
  /\ (same_clock ->
      rows (g_table g1) = rows (g_table g2)
      /\ forall i, g_clock g1 (g_ticks g1 + i)%nat = g_clock g2 (g_ticks g2 + i)%nat).

(** A computation that does the same on states that [agree]. *)
Definition clock_blind {F} {RS : RandomSource F} {A}
    (m : M (gen_state F) A) : Prop :=
  forall same_clock g1 g2,
    agree same_clock g1 g2 ->
    fst (m g1) = fst (m g2) /\ agree same_clock (snd (m g1)) (snd (m g2)).

(** ** Vocabulary of the structure of the ledger *)

(** The row [e] as the table stores it: with its rowid and the time of
    its insertion. *)
Definition stamp_row {F} (e : Event F) (rowid : Z) (now : Timestamp) : Event F :=
  mk_event rowid (product_id e) (product_name e) (brand e) (category e)
    (color e) (action e) (qty_delta e) (unit_price e) (notes e) now.

(** The rows [l] as successive [INSERT]s store them, in a table whose
    counter is [seq], by a clock that was read [k] times. *)
Fixpoint stamp {F} (seq : Z) (clock : nat -> Timestamp) (k : nat)
    (l : list (Event F)) : list (Event F) :=
  match l with
  | [] => []
  | e :: rest =>
      stamp_row e (seq + 1) (clock k) :: stamp (seq + 1) clock (S k) rest
  end.

(** The generator state after the stream moved to [s'] and the rows [l]
    were inserted. *)
Definition run_to {F} {RS : RandomSource F} (s' : rng_state)
    (l : list (Event F)) (g : gen_state F) : gen_state F :=
  mk_gen s'
    (mk_table (columns (g_table g))
       (rows (g_table g)
        ++ stamp (sqlite_seq (g_table g)) (g_clock g) (g_ticks g) l)
       (sqlite_seq (g_table g) + Z.of_nat (List.length l)))
    (g_clock g) (List.length l + g_ticks g).

(** From the stream state [s], whatever the table and the clock, [m]
    returns [a], leaves the stream at [s'] and inserts the rows [l]. *)
Definition emits {F} {RS : RandomSource F} {A} (m : M (gen_state F) A)
    (s : rng_state) (a : A) (s' : rng_state) (l : list (Event F)) : Prop :=
  forall g, g_rng g = s -> m g = (Ret a, run_to s' l g).

(** The row carries the catalog attributes of [p]. *)
Definition of_product {F} (p : product F) (e : Event F) : Prop :=
  product_id e = p_pid p /\ product_name e = p_name p
  /\ brand e = p_brand p /\ category e = p_category p /\ color e = p_color p.

(** The text that the generator writes into [notes], read off the other
    columns of the row. *)
Definition describe {F} `{FloatOps F} (e : Event F) : string :=
  let price := match unit_price e with Some x => repr x | None => "None" end in
  if String.eqb (action e) "insert" then
    "Initial insert with stock=" +++ str_of_int (qty_delta e)
    +++ ", price=" +++ price
  else if String.eqb (action e) "restock" then
    "Restock +" +++ str_of_int (qty_delta e) +++ " units"
  else if String.eqb (action e) "sale" then
    "Sale " +++ str_of_int (- qty_delta e) +++ " units at " +++ price
  else "Price update to " +++ price.

(** The follow-up rows of one product, from the running price [cp] on:
    a [restock] has no price, a [sale] has the running price, a
    [price_update] has the price that runs from then on. *)
Inductive price_chain {F} : F -> list (Event F) -> Prop :=
| chain_end (cp : F) : price_chain cp []
| chain_restock (cp : F) (e : Event F) (l : list (Event F)) :
    action e = "restock" -> unit_price e = None ->
    price_chain cp l -> price_chain cp (e :: l)
| chain_sale (cp : F) (e : Event F) (l : list (Event F)) :
    action e = "sale" -> unit_price e = Some cp ->
    price_chain cp l -> price_chain cp (e :: l)
| chain_update (cp cp' : F) (e : Event F) (l : list (Event F)) :
    action e = "price_update" -> unit_price e = Some cp' ->
    price_chain cp' l -> price_chain cp (e :: l).

(** The rows of one product, for [k] events per product: the [insert]
    with the base price, then [k - 1] follow-ups (none when [k <= 1]). *)
Definition product_block {F} `{FloatOps F} (k : Z) (p : product F)
    (l : list (Event F)) : Prop :=
  exists first rest,
    l = first :: rest
    /\ action first = "insert"
    /\ unit_price first = Some (p_base_price p)
    /\ List.length rest = Z.to_nat (k - 1)
    /\ Forall (fun e => action e <> "insert") rest
    /\ price_chain (p_base_price p) rest
    /\ Forall (fun e => of_product p e /\ notes e = Some (describe e)) l.

(** How the first loop builds a catalog entry: the name joins a brand and
    a category, [brand] and [category] are the first two words of the
    name, the color comes from the list. *)
Definition catalog_entry {F} (p : product F) : Prop :=
  exists b c,
    In b brands /\ In c categories
    /\ p_name p = b +++ " " +++ c
    /\ nth_error (split (p_name p)) 0 = Some (p_brand p)
    /\ nth_error (split (p_name p)) 1 = Some (p_category p)
    /\ In (p_color p) colors.

(** Current price of product [pid] after the events [log]: the
    [unit_price] of its most recent event that has one. *)
Fixpoint price_in_effect {F} (pid : Z) (log : list (Event F)) : option F :=
  match log with
  | [] => None
  | e :: rest =>
      match price_in_effect pid rest with
      | Some x => Some x
      | None => if product_id e =? pid then unit_price e else None
      end
  end.

(** Every [sale] of [l] carries the price in effect after the events
    before it, [seen] being the events before [l]. *)
Fixpoint sales_at_price_in_effect {F} (seen l : list (Event F)) : Prop :=
  match l with
  | [] => True
  | e :: rest =>
      (action e = "sale" ->
       unit_price e = price_in_effect (product_id e) seen)
      /\ sales_at_price_in_effect (seen ++ [e]) rest
  end.

(** ** Vocabulary of the escaped text *)

(** What [html.escape] puts in the place of one character. *)
Definition escape_char (c : ascii) : string :=
  if Ascii.eqb c "&" then "&amp;"
  else if Ascii.eqb c "<" then "&lt;"
  else if Ascii.eqb c ">" then "&gt;"
  else if Ascii.eqb c (ascii_of_nat 34) then "&quot;"
  else if Ascii.eqb c "'" then "&#x27;"
  else String c EmptyString.

Fixpoint escape_chars (s : string) : string :=
  match s with
  | EmptyString => EmptyString
  | String c rest => escape_char c +++ escape_chars rest
  end.

(** The text holds a character that can open or close a tag or an
    attribute value: an angle bracket or a quote. *)
Fixpoint has_markup (s : string) : bool :=
  match s with
  | EmptyString => false
  | String c rest =>
      Ascii.eqb c "<" || Ascii.eqb c ">" || Ascii.eqb c (ascii_of_nat 34)
      || Ascii.eqb c "'" || has_markup rest
  end.

(** * Properties *)

(** ** Strings *)

Lemma append_nil_r (s : string) : s +++ "" = s.
Proof. induction s as [|c s IH]; simpl; [reflexivity | now rewrite IH]. Qed.

Lemma append_assoc (a b c : string) : (a +++ b) +++ c = a +++ b +++ c.
Proof. induction a as [|x a IH]; simpl; [reflexivity | now rewrite IH]. Qed.

Lemma lstrip_spaces (ws s : string) :
  all_space ws = true -> lstrip (ws +++ s) = lstrip s.
Proof.
  induction ws as [|c ws IH]; simpl; intros H; [reflexivity|].
  apply andb_true_iff in H as [Hc Hws]. rewrite Hc. now apply IH.
Qed.

Lemma rstrip_spaces (ws : string) : all_space ws = true -> rstrip ws = "".
Proof.
  induction ws as [|c ws IH]; simpl; intros H; [reflexivity|].
  apply andb_true_iff in H as [Hc Hws]. now rewrite (IH Hws), Hc.
Qed.

(** [rstrip] looks at the right end only. *)
Lemma rstrip_append (a b : string) :
  rstrip (a +++ b) =
  match rstrip b with
  | EmptyString => rstrip a
  | r => a +++ r
  end.
Proof.
  induction a as [|c a IH]; simpl.
  - now destruct (rstrip b).
  - rewrite IH. destruct (rstrip b) as [|d r]; [reflexivity|].
    now destruct (a +++ String d r) eqn:E; [destruct a; discriminate|].
Qed.

Lemma rstrip_append_kept (a b : string) :
  rstrip b = b -> b <> "" -> rstrip (a +++ b) = a +++ b.
Proof.
  intros Hb Hne. rewrite rstrip_append, Hb. now destruct b.
Qed.

Lemma rstrip_idempotent (s : string) : rstrip (rstrip s) = rstrip s.
Proof.
  induction s as [|c s IH]; simpl; [reflexivity|].
  destruct (rstrip s) as [|d r] eqn:E.
  - destruct (isspace c) eqn:Hc; simpl; [reflexivity | now rewrite Hc].
  - change (rstrip (String c (String d r))) with
      (match rstrip (String d r) with
       | EmptyString => if isspace c then EmptyString else String c EmptyString
       | r' => String c r'
       end).
    now rewrite IH.
Qed.

Lemma after_prefix_append (p r : string) : after_prefix p (p +++ r) = Some r.
Proof.
  induction p as [|c p IH]; simpl; [reflexivity|].
  now rewrite Ascii.eqb_refl.
Qed.

Lemma removeprefix_append (p r : string) : removeprefix p (p +++ r) = r.
Proof. unfold removeprefix. now rewrite after_prefix_append. Qed.

Lemma length_append (a b : string) :
  String.length (a +++ b) = (String.length a + String.length b)%nat.
Proof. induction a as [|c a IH]; simpl; [reflexivity | now rewrite IH]. Qed.

Lemma before_suffix_append (suf b : string) :
  before_suffix suf (b +++ suf) = Some b.
Proof.
  induction b as [|c b IH].
  - simpl. destruct suf; simpl; now rewrite ?String.eqb_refl, ?Ascii.eqb_refl.
  - cbn [String.append before_suffix].
    destruct (String.eqb (String c (b +++ suf)) suf) eqn:E.
    + apply String.eqb_eq in E. apply (f_equal String.length) in E.
      simpl in E. rewrite length_append in E. lia.
    + now rewrite IH.
Qed.

Lemma removesuffix_append (suf b : string) : removesuffix suf (b +++ suf) = b.
Proof. unfold removesuffix. now rewrite before_suffix_append. Qed.

Lemma removesuffix_absent (suf s : string) :
  endswith suf s = false -> removesuffix suf s = s.
Proof.
  unfold endswith, removesuffix. now destruct (before_suffix suf s).
Qed.

(** A text that starts and ends with a character that is not a space
    comes out of [strip] when spaces are put around it. *)
Lemma strip_padded (ws1 ws2 x : string) :
  all_space ws1 = true -> all_space ws2 = true ->
  rstrip x = x -> lstrip x = x -> x <> "" ->
  strip (ws1 +++ x +++ ws2) = x.
Proof.
  intros H1 H2 Hr Hl Hne. unfold strip.
  rewrite rstrip_append, rstrip_append, (rstrip_spaces _ H2), Hr.
  destruct x as [|c x]; [contradiction|].
  now rewrite lstrip_spaces.
Qed.

(** ** The sanitizer *)

(** C3, as the code has it.  A query wrapped in a leading fence that is
    immediately followed by the tag [sql], with spaces allowed around the
    whole text, comes back as its body without the fences and without
    surrounding spaces: with a trailing fence for every body, and without
    one for every body that does not itself end in a fence.  In
    particular the fenced [SELECT 1] of the specification comes back as
    [SELECT 1]. *)
Theorem sanitize_sql_fence (ws1 ws2 body : string) :
  all_space ws1 = true -> all_space ws2 = true ->
  sanitize (ws1 +++ "```sql" +++ body +++ "```" +++ ws2) = strip body
  /\ (endswith "```" (rstrip body) = false ->
      sanitize (ws1 +++ "```sql" +++ body +++ ws2) = strip body)
  /\ sanitize ("```sql" +++ nl +++ "SELECT 1" +++ nl +++ "```") = "SELECT 1".
Proof.
  intros H1 H2. split; [|split].
  - unfold sanitize.
    replace (ws1 +++ "```sql" +++ body +++ "```" +++ ws2)
      with (ws1 +++ ("```sql" +++ body +++ "```") +++ ws2)
      by (now rewrite !append_assoc).
    rewrite strip_padded; try assumption.
    + now rewrite removeprefix_append, removesuffix_append.
    + rewrite <- append_assoc. now apply rstrip_append_kept.
    + reflexivity.
    + discriminate.
  - intros Hend. unfold sanitize.
    assert (Hr : rstrip ("```sql" +++ body +++ ws2) = "```sql" +++ rstrip body).
    { rewrite rstrip_append.
      replace (rstrip (body +++ ws2)) with (rstrip body)
        by (now rewrite (rstrip_append body ws2), (rstrip_spaces _ H2)).
      destruct (rstrip body); [reflexivity | reflexivity]. }
    assert (Hs : strip (ws1 +++ "```sql" +++ body +++ ws2)
                 = "```sql" +++ rstrip body).
    { unfold strip. rewrite rstrip_append, Hr.
      cbn [String.append]. now rewrite lstrip_spaces. }
    rewrite Hs, removeprefix_append, (removesuffix_absent _ _ Hend).
    unfold strip. now rewrite rstrip_idempotent.
  - reflexivity.
Qed.

Lemma sanitize_sql_fence_witness :
  sanitize ("  " +++ "```sql" +++ " SELECT 2 " +++ "```" +++ nl) = "SELECT 2".
Proof.
  exact (proj1 (sanitize_sql_fence "  " nl " SELECT 2 " eq_refl eq_refl)).
Defined.

(** A leading fence that carries no tag stays in the text. *)
Lemma sanitize_keeps_untagged_fence :
  sanitize ("```" +++ nl +++ "SELECT 1" +++ nl +++ "```")
    = "```" +++ nl +++ "SELECT 1"
  /\ sanitize ("```" +++ nl +++ "SELECT 1" +++ nl +++ "```") <> "SELECT 1".
Proof. split; [reflexivity | discriminate]. Qed.

(** ** The query gateway *)

Section GatewayProperties.
Context {F : Type} {SE : SqlEngine F}.

(** The database a fresh connection sees is the one stored at its path,
    or an empty one. *)
Lemma connect_opens (path : string) (w : World F) :
  can_open w path = true ->
  exists w1,
    connect path w = (Ret (mk_conn (next_conn w) path), w1)
    /\ db_of w1 (mk_conn (next_conn w) path) = db_of w (mk_conn (next_conn w) path)
    /\ open_conns w1 = next_conn w :: open_conns w
    /\ next_conn w1 = S (next_conn w)
    /\ can_open w1 = can_open w
    /\ wall_clock w1 = wall_clock w /\ ticks w1 = ticks w
    /\ stdout w1 = stdout w.
Proof.
  intros Hopen. unfold connect. rewrite Hopen. eexists. split; [reflexivity|].
  repeat split. unfold db_of; simpl.
  destruct (files w path) eqn:E; [now rewrite E|].
  unfold set_file. now rewrite String.eqb_refl.
Qed.

Lemma connect_refused (path : string) (w : World F) :
  can_open w path = false ->
  connect path w = (Raise (OperationalError "unable to open database file"), w).
Proof. intros H. unfold connect. now rewrite H. Qed.

(** Closing the connection that was opened last gives back the connections
    that were open before it. *)
Lemma filter_fresh (n : nat) (l : list nat) :
  (forall h, In h l -> (h < n)%nat) ->
  List.filter (fun h => negb (Nat.eqb h n)) (n :: l) = l.
Proof.
  intros Hl. simpl. rewrite Nat.eqb_refl. simpl.
  induction l as [|h l IH]; simpl; [reflexivity|].
  assert (Hh : (h < n)%nat) by (apply Hl; now left).
  destruct (Nat.eqb h n) eqn:E; [apply Nat.eqb_eq in E; lia|].
  simpl. f_equal. apply IH. intros h' Hh'. apply Hl. now right.
Qed.

(** C2.  When the store opens and the engine fails on the sanitized query
    with an exception [e], [execute_sql] does not raise: it returns the
    frame whose only column is [error] and whose only row holds [str(e)]. *)
Theorem execute_sql_failure_is_data (query db_path : string) (w : World F)
    (e : exn) (db' : Database F) :
  can_open w db_path = true ->
  read_sql_query (sanitize query) (db_of w (mk_conn (next_conn w) db_path))
    = (Raise e, db') ->
  is_Exception e = true ->
  exists df w',
    execute_sql query db_path w = (Ret df, w')
    /\ df_columns df = ["error"]
    /\ df_rows df = [[VText (exn_message e)]].
Proof.
  intros Hopen Hfail Hexc.
  destruct (connect_opens db_path w Hopen) as (w1 & Hc & Hdb & _).
  unfold execute_sql, bind. rewrite Hc.
  unfold try_finally, try_except, pd_read_sql_query.
  rewrite Hdb, Hfail, Hexc. simpl.
  eexists. eexists. split; [reflexivity|]. split; reflexivity.
Qed.

(** C9.  In a world whose open connections were all handed out earlier,
    a call of [execute_sql] leaves, on each of its exits, exactly the
    connections open that were open before it; when the store opens, the
    call took one connection of its own, which is closed by then. *)
Theorem execute_sql_releases_connection (query db_path : string) (w w' : World F)
    (r : outcome (DataFrame F)) :
  (forall h, In h (open_conns w) -> (h < next_conn w)%nat) ->
  execute_sql query db_path w = (r, w') ->
  open_conns w' = open_conns w
  /\ (can_open w db_path = true ->
      next_conn w' = S (next_conn w) /\ ~ In (next_conn w) (open_conns w'))
  /\ (can_open w db_path = false -> next_conn w' = next_conn w).
Proof.
  intros Hwf Hrun.
  destruct (can_open w db_path) eqn:Hopen.
  - destruct (connect_opens db_path w Hopen)
      as (w1 & Hc & _ & Hconns & Hnext & _).
    unfold execute_sql, bind in Hrun. rewrite Hc in Hrun.
    unfold try_finally, try_except, pd_read_sql_query, close in Hrun.
    assert (Hw' : open_conns w' = open_conns w /\ next_conn w' = S (next_conn w)).
    { destruct (read_sql_query (sanitize query)
                  (db_of w1 (mk_conn (next_conn w) db_path))) as [[df|e] db'];
        [|destruct (is_Exception e)];
        simpl in Hrun; inversion Hrun; subst; simpl;
        rewrite Hconns, Hnext; (split; [now apply filter_fresh | reflexivity]). }
    destruct Hw' as [Ho Hn]. split; [exact Ho|]. split; [|discriminate].
    intros _. split; [exact Hn|]. rewrite Ho. intros Hin.
    apply Hwf in Hin. lia.
  - unfold execute_sql, bind in Hrun.
    rewrite (connect_refused db_path w Hopen) in Hrun.
    inversion Hrun; subst. split; [reflexivity|]. split; [discriminate|].
    reflexivity.
Qed.


End GatewayProperties.

Lemma execute_sql_failure_is_data_witness :
  exists df w',
    execute_sql "SELECT * FROM does_not_exist" "products.db"
      (empty_world "2025-01-01 00:00:00") = (Ret df, w')
    /\ df_columns df = ["error"]
    /\ df_rows df =
         [[VText "Execution failed on sql 'SELECT * FROM does_not_exist'"]].
Proof.
  apply (execute_sql_failure_is_data
           "SELECT * FROM does_not_exist" "products.db"
           (empty_world "2025-01-01 00:00:00")
           (mk_exn "pandas.errors.DatabaseError"
              "Execution failed on sql 'SELECT * FROM does_not_exist'" true)
           empty_db); reflexivity.
Defined.

Lemma execute_sql_releases_connection_witness :
  open_conns (snd (execute_sql "```sql SELECT 1 ```" "products.db"
                     (empty_world "2025-01-01 00:00:00"))) = []
  /\ next_conn (snd (execute_sql "```sql SELECT 1 ```" "products.db"
                       (empty_world "2025-01-01 00:00:00"))) = 1%nat.
Proof.
  destruct (execute_sql_releases_connection
              "```sql SELECT 1 ```" "products.db"
              (empty_world "2025-01-01 00:00:00") _ _
              (fun h (H : In h []) => match H with end)
              (surjective_pairing _))
    as (Ho & Hn & _).
  split; [exact Ho | exact (proj1 (Hn eq_refl))].
Defined.



(** ** Rules for [returns] *)

Lemma returns_ret {S A} (P : S -> Prop) (Q : A -> S -> Prop) (a : A) :
  (forall s, P s -> Q a s) -> returns P (ret a) Q.
Proof. intros H s Hs. exists a, s. split; [reflexivity | now apply H]. Qed.

Lemma returns_bind {S A B} (P : S -> Prop) (R : A -> S -> Prop)
    (Q : B -> S -> Prop) (m : M S A) (k : A -> M S B) :
  returns P m R -> (forall a, returns (R a) (k a) Q) -> returns P (bind m k) Q.
Proof.
  intros Hm Hk s Hs. destruct (Hm s Hs) as (a & s1 & E1 & H1).
  destruct (Hk a s1 H1) as (b & s2 & E2 & H2).
  exists b, s2. unfold bind. rewrite E1. now split.
Qed.

Lemma returns_weaken {S A} (P P' : S -> Prop) (Q Q' : A -> S -> Prop) (m : M S A) :
  returns P' m Q' -> (forall s, P s -> P' s) ->
  (forall a s, Q' a s -> Q a s) -> returns P m Q.
Proof.
  intros Hm HP HQ s Hs. destruct (Hm s (HP s Hs)) as (a & s' & E & H).
  exists a, s'. split; [exact E | now apply HQ].
Qed.

Lemma getitem_in_range {S A} (l : list A) (i : Z) (s : S) :
  0 <= i < Z.of_nat (List.length l) ->
  exists a, getitem l i s = (Ret a, s) /\ nth_error l (Z.to_nat i) = Some a.
Proof.
  intros Hi. unfold getitem.
  destruct (i <? 0) eqn:E0; [apply Z.ltb_lt in E0; lia|].
  rewrite E0. simpl.
  destruct (Z.of_nat (List.length l) <=? i) eqn:E1; [apply Z.leb_le in E1; lia|].
  destruct (nth_error l (Z.to_nat i)) as [a|] eqn:E2.
  - exists a. now split.
  - apply nth_error_None in E2. lia.
Qed.

(** ** The random methods return, and return values in range *)

Section RandomProperties.
Context {F : Type} {FO : FloatOps F} {RS : RandomSource F}.
Hypothesis in_range : randbelow_in_range.

Lemma choice_returns {A} (seq : list A) (s : rng_state) :
  seq <> [] -> exists a s', choice seq s = (Ret a, s') /\ In a seq.
Proof.
  intros Hne. unfold choice.
  destruct seq as [|x seq]; [contradiction|].
  pose proof (in_range (Z.of_nat (List.length (x :: seq))) s) as Hr.
  destruct (randbelow (Z.of_nat (List.length (x :: seq))) s) as [i s'].
  simpl fst in Hr.
  destruct (getitem_in_range (x :: seq) i s') as (a & E & Hn).
  { apply Hr. simpl List.length. lia. }
  exists a, s'. split; [exact E | now apply nth_error_In in Hn].
Qed.

Lemma randint_returns (a b : Z) (s : rng_state) :
  a <= b -> exists r s', randint a b s = (Ret r, s') /\ a <= r <= b.
Proof.
  intros Hab. unfold randint.
  destruct (0 <? b + 1 - a) eqn:E; [|apply Z.ltb_ge in E; lia].
  pose proof (in_range (b + 1 - a) s) as Hr.
  destruct (randbelow (b + 1 - a) s) as [r s']. simpl in Hr.
  exists (a + r), s'. split; [reflexivity | lia].
Qed.

Lemma uniform_returns (a b : F) (s : rng_state) :
  exists u s', uniform a b s = (Ret u, s').
Proof.
  unfold uniform. destruct (random s) as [u s']. now eexists; eexists.
Qed.

Lemma bisect_loop_bound (rounds : nat) (a : list F) (x : F) (lo hi : nat) :
  (lo <= hi)%nat -> (bisect_loop rounds a x lo hi <= hi)%nat.
Proof.
  revert lo hi. induction rounds as [|rounds IH]; intros lo hi Hle;
    cbn [bisect_loop]; [exact Hle|].
  destruct (lo <? hi)%nat eqn:E; [|exact Hle].
  apply Nat.ltb_lt in E.
  assert (Hmid : (lo <= (lo + hi) / 2 < hi)%nat).
  { split.
    - apply Nat.div_le_lower_bound; lia.
    - apply Nat.Div0.div_lt_upper_bound; lia. }
  destruct (flt x (nth ((lo + hi) / 2) a x)).
  - etransitivity; [apply IH|]; lia.
  - apply IH. lia.
Qed.

Lemma accumulate_from_length (acc : F) (ws : list F) :
  List.length (accumulate_from acc ws) = List.length ws.
Proof.
  revert acc. induction ws as [|w ws IH]; intros acc; simpl;
    [reflexivity | now rewrite IH].
Qed.

Lemma accumulate_length (ws : list F) :
  List.length (accumulate ws) = List.length ws.
Proof.
  destruct ws as [|w ws]; simpl; [reflexivity | now rewrite accumulate_from_length].
Qed.

Lemma choices1_returns {A} (population : list A) (weights : list F)
    (s : rng_state) :
  population <> [] -> List.length weights = List.length population ->
  exists a s', choices1 population weights s = (Ret a, s') /\ In a population.
Proof.
  intros Hne Hlen. unfold choices1.
  rewrite accumulate_length, Hlen, Nat.eqb_refl. simpl negb. cbv iota.
  destruct (random s) as [u s'].
  set (i := bisect _ _ _ _).
  assert (Hi : (i <= List.length population - 1)%nat).
  { unfold i, bisect. apply bisect_loop_bound. lia. }
  destruct (getitem_in_range population (Z.of_nat i) s') as (a & E & Hn).
  { destruct population; [contradiction|]. simpl List.length in *. lia. }
  exists a, s'. split; [exact E | now apply nth_error_In in Hn].
Qed.

End RandomProperties.

(** ** The generator keeps [ledger_inv] *)

Section GeneratorProperties.
Context {F : Type} {FO : FloatOps F} {RS : RandomSource F}.
Hypothesis in_range : randbelow_in_range.

(** A method call on [rng] leaves the table alone. *)
Lemma returns_draw {A B} (m : M rng_state A) (good : A -> Prop)
    (I : table F -> Prop) (k : A -> M (gen_state F) B)
    (Q : B -> gen_state F -> Prop) :
  (forall s, exists a s', m s = (Ret a, s') /\ good a) ->
  (forall a, good a -> returns (fun g => I (g_table g)) (k a) Q) ->
  returns (fun g => I (g_table g)) (bind (draw m) k) Q.
Proof.
  intros Hm Hk g Hg. destruct (Hm (g_rng g)) as (a & s' & E & Ha).
  destruct (Hk a Ha (mk_gen s' (g_table g) (g_clock g) (g_ticks g)) Hg)
    as (b & g' & E' & Hb).
  exists b, g'. unfold bind, draw. rewrite E. now split.
Qed.

Lemma returns_getitem {S A B} (l : list A) (i : Z) (P : S -> Prop)
    (k : A -> M S B) (Q : B -> S -> Prop) :
  0 <= i < Z.of_nat (List.length l) ->
  (forall a, In a l -> returns P (k a) Q) ->
  returns P (bind (getitem l i) k) Q.
Proof.
  intros Hi Hk s Hs. destruct (getitem_in_range l i s Hi) as (a & E & Hn).
  destruct (Hk a (nth_error_In _ _ Hn) s Hs) as (b & s' & E' & Hb).
  exists b, s'. unfold bind. rewrite E. now split.
Qed.

(** An [INSERT] appends one row, numbered one above the counter. *)
Lemma returns_insert {B} (p : product F) (act : string) (qty : Z)
    (price : option F) (note : string) (I J : table F -> Prop)
    (k : unit -> M (gen_state F) B) (Q : B -> gen_state F -> Prop) :
  (forall t now, I t ->
     J (mk_table (columns t)
          (rows t ++ [mk_event (sqlite_seq t + 1) (p_pid p) (p_name p)
                        (p_brand p) (p_category p) (p_color p) act qty price
                        (Some note) now])
          (sqlite_seq t + 1))) ->
  returns (fun g => J (g_table g)) (k tt) Q ->
  returns (fun g => I (g_table g)) (bind (insert_event p act qty price note) k) Q.
Proof.
  intros HJ Hk g Hg. unfold bind, insert_event.
  apply (Hk (mk_gen _ _ _ _)). simpl. now apply HJ.
Qed.

Lemma range_snoc (a b : Z) : a <= b -> range a (b + 1) = range a b ++ [b].
Proof.
  intros Hab. unfold range.
  replace (Z.to_nat (b + 1 - a)) with (S (Z.to_nat (b - a))) by lia.
  rewrite seq_S, map_app. simpl. do 2 f_equal. lia.
Qed.

Lemma in_range_list (a b x : Z) : In x (range a b) <-> a <= x < b.
Proof.
  unfold range. rewrite in_map_iff. split.
  - intros (i & <- & Hi). apply in_seq in Hi. lia.
  - intros Hx. exists (Z.to_nat (x - a)). split; [lia|].
    apply in_seq. lia.
Qed.

(** Under the invariant every rowid lies between 1 and the counter. *)
Lemma ledger_inv_ids (t : table F) (e : Event F) :
  ledger_inv t -> In e (rows t) -> 1 <= id e <= sqlite_seq t.
Proof.
  intros (_ & _ & Hids & _) He.
  apply (in_map id) in He. rewrite Hids in He.
  apply in_range_list in He. lia.
Qed.

(** Appending a well-shaped row that is an [insert], or whose product is
    already in the table, keeps the invariant. *)
Lemma ledger_inv_append (t : table F) (e : Event F) :
  ledger_inv t ->
  id e = sqlite_seq t + 1 ->
  row_shape e ->
  action e = "insert" \/ has_product (product_id e) t ->
  ledger_inv (mk_table (columns t) (rows t ++ [e]) (sqlite_seq t + 1)).
Proof.
  intros Hinv Hid Hrow Hprod.
  pose proof (ledger_inv_ids t) as Hbound.
  destruct Hinv as (Hcols & Hshape & Hids & Hseq & Hfirst).
  assert (Hinv : ledger_inv t) by (unfold ledger_inv; auto).
  unfold ledger_inv. simpl.
  split; [exact Hcols|].
  split; [apply Forall_app; split; [exact Hshape | now constructor]|].
  split; [rewrite map_app, Hids, (range_snoc 1 (sqlite_seq t + 1)) by lia;
          simpl; now rewrite Hid|].
  split; [lia|].
  intros e1 H1. apply in_app_or in H1 as [H1|[<-|[]]].
  - destruct (Hfirst e1 H1) as [Hi|(e' & He' & Hp & Hlt)]; [now left|].
    right. exists e'. split; [apply in_or_app; now left | now split].
  - destruct Hprod as [Hi|(e' & He' & Hp)]; [now left|].
    right. exists e'. split; [apply in_or_app; now left|].
    split; [exact Hp|]. apply (Hbound e' Hinv) in He'. lia.
Qed.

Lemma ledger_inv_with_append (J : table F -> Prop) (t : table F) (e : Event F) :
  kept_by_inserts J ->
  ledger_inv_with J t ->
  id e = sqlite_seq t + 1 ->
  row_shape e ->
  action e = "insert" \/ has_product (product_id e) t ->
  ledger_inv_with J (mk_table (columns t) (rows t ++ [e]) (sqlite_seq t + 1)).
Proof.
  intros HJ [Hinv Ht] Hid Hrow Hprod. split.
  - now apply ledger_inv_append.
  - now apply HJ.
Qed.

Lemma has_product_append (pid : Z) (t : table F) (e : Event F)
    (cols : list column) (n : Z) :
  has_product pid t \/ product_id e = pid ->
  has_product pid (mk_table cols (rows t ++ [e]) n).
Proof.
  intros [(e' & He' & Hp)|Hp].
  - exists e'. split; [apply in_or_app; now left | exact Hp].
  - exists e. split; [apply in_or_app; right; now left | exact Hp].
Qed.

Lemma has_product_kept (pid : Z) : kept_by_inserts (has_product (F := F) pid).
Proof. intros t e n H. apply has_product_append. now left. Qed.

Lemma kept_by_inserts_and (J1 J2 : table F -> Prop) :
  kept_by_inserts J1 -> kept_by_inserts J2 ->
  kept_by_inserts (fun t => J1 t /\ J2 t).
Proof. intros H1 H2 t e n [Ha Hb]. split; [now apply H1 | now apply H2]. Qed.

(** One follow-up event of a product that is already in the table. *)
Lemma followup_keeps (J : table F -> Prop) (p : product F) (current_price : F) :
  kept_by_inserts J ->
  (forall t, J t -> has_product (p_pid p) t) ->
  returns (fun g => ledger_inv_with J (g_table g))
    (followup p current_price)
    (fun _ g => ledger_inv_with J (g_table g)).
Proof.
  intros HJ Hhas. unfold followup.
  apply (returns_draw _ (fun _ => True) (ledger_inv_with J)).
  { intros s.
    destruct (choices1_returns ["restock"; "sale"; "price_update"]
                [float_of 0.25; float_of 0.6; float_of 0.15] s)
      as (a & s' & E & _); [discriminate | reflexivity |].
    now exists a, s'. }
  intros event_type _.
  destruct (String.eqb event_type "restock");
    [|destruct (String.eqb event_type "sale")].
  - apply (returns_draw _ (fun q => 1 <= q <= 25) (ledger_inv_with J)).
    { intros s. apply (randint_returns in_range); lia. }
    intros qty Hqty.
    apply (returns_insert _ _ _ _ _ (ledger_inv_with J) (ledger_inv_with J)).
    + intros t now Ht.
      apply ledger_inv_with_append;
        [exact HJ | exact Ht | reflexivity | | right; apply Hhas, Ht].
      right; left. now repeat split.
    + now apply returns_ret.
  - apply (returns_draw _ (fun q => 1 <= q <= 10) (ledger_inv_with J)).
    { intros s. apply (randint_returns in_range); lia. }
    intros r Hr.
    apply (returns_insert _ _ _ _ _ (ledger_inv_with J) (ledger_inv_with J)).
    + intros t now Ht.
      apply ledger_inv_with_append;
        [exact HJ | exact Ht | reflexivity | | right; apply Hhas, Ht].
      right; right; left. simpl. repeat split; try lia; discriminate.
    + now apply returns_ret.
  - apply (returns_draw _ (fun _ => True) (ledger_inv_with J)).
    { intros s. destruct (uniform_returns (float_of (-5.0)) (float_of 5.0) s)
        as (u & s' & E). now exists u, s'. }
    intros u _.
    apply (returns_insert _ _ _ _ _ (ledger_inv_with J) (ledger_inv_with J)).
    + intros t now Ht.
      apply ledger_inv_with_append;
        [exact HJ | exact Ht | reflexivity | | right; apply Hhas, Ht].
      right; right; right. simpl. repeat split; discriminate.
    + now apply returns_ret.
Qed.

Lemma followups_keep (J : table F -> Prop) (n : nat) (p : product F)
    (current_price : F) :
  kept_by_inserts J ->
  (forall t, J t -> has_product (p_pid p) t) ->
  returns (fun g => ledger_inv_with J (g_table g))
    (followups n p current_price)
    (fun _ g => ledger_inv_with J (g_table g)).
Proof.
  intros HJ Hhas. revert current_price.
  induction n as [|n IH]; intros current_price; simpl.
  - now apply returns_ret.
  - eapply returns_bind; [now apply followup_keeps|]. intros cp. apply IH.
Qed.

(** The events of one product: the opening [insert], then the follow-ups.
    Afterwards the product is in the table. *)
Lemma seed_product_keeps (J : table F -> Prop) (n_txns_per_product : Z)
    (p : product F) :
  kept_by_inserts J ->
  returns (fun g => ledger_inv_with J (g_table g))
    (seed_product n_txns_per_product p)
    (fun _ g =>
       ledger_inv_with (fun t => has_product (p_pid p) t /\ J t) (g_table g)).
Proof.
  intros HJ. unfold seed_product.
  apply (returns_draw _ (fun q => 5 <= q <= 50) (ledger_inv_with J)).
  { intros s. apply (randint_returns in_range); lia. }
  intros initial_stock Hstock.
  apply (returns_insert _ _ _ _ _ (ledger_inv_with J)
           (ledger_inv_with (fun t => has_product (p_pid p) t /\ J t))).
  - intros t now [Hinv Ht]. split; [|split].
    + apply ledger_inv_append; [exact Hinv | reflexivity | | now left].
      left. simpl. repeat split; try lia; discriminate.
    + apply has_product_append. now right.
    + now apply HJ.
  - eapply returns_bind.
    + apply followups_keep.
      * apply kept_by_inserts_and; [apply has_product_kept | exact HJ].
      * now intros t [Hp _].
    + intros cp. now apply returns_ret.
Qed.

(** All the events: afterwards every product of the catalog is in the
    table. *)
Lemma seed_events_keep (J : table F -> Prop) (n_txns_per_product : Z)
    (catalog : list (product F)) :
  kept_by_inserts J ->
  returns (fun g => ledger_inv_with J (g_table g))
    (seed_events n_txns_per_product catalog)
    (fun _ g =>
       ledger_inv_with
         (fun t => (forall p, In p catalog -> has_product (p_pid p) t) /\ J t)
         (g_table g)).
Proof.
  revert J. induction catalog as [|p catalog IH]; intros J HJ; simpl.
  - apply returns_ret. intros g [Hinv Ht]. split; [exact Hinv|].
    split; [intros q [] | exact Ht].
  - eapply returns_bind; [now apply seed_product_keeps|]. intros u.
    eapply returns_weaken.
    + apply (IH (fun t => has_product (p_pid p) t /\ J t)).
      apply kept_by_inserts_and; [apply has_product_kept | exact HJ].
    + auto.
    + intros v g (Hinv & Hrest & Hp & Ht). split; [exact Hinv|].
      split; [|exact Ht]. intros q [<-|Hq]; [exact Hp | now apply Hrest].
Qed.

(** The name built from a brand and a category always has the two words
    that the loop indexes. *)
Lemma split_name_has_two_words (b c : string) :
  In b brands -> In c categories ->
  (2 <= List.length (split (b +++ " " +++ c)))%nat.
Proof.
  unfold brands, categories. simpl.
  intros Hb Hc.
  repeat (destruct Hb as [<-|Hb]); try contradiction;
    repeat (destruct Hc as [<-|Hc]); try contradiction;
    vm_compute; lia.
Qed.

Lemma make_product_keeps (I : table F -> Prop) (pid : Z) :
  returns (fun g => I (g_table g)) (make_product pid)
    (fun p g => p_pid p = pid /\ I (g_table g)).
Proof.
  unfold make_product.
  apply (returns_draw _ (fun b => In b brands) I).
  { intros s. apply (choice_returns in_range). discriminate. }
  intros b Hb.
  apply (returns_draw _ (fun c => In c categories) I).
  { intros s. apply (choice_returns in_range). discriminate. }
  intros c Hc.
  pose proof (split_name_has_two_words b c Hb Hc) as Hwords.
  apply returns_getitem; [lia|]. intros brand _.
  apply returns_getitem; [lia|]. intros category _.
  apply (returns_draw _ (fun _ => True) I).
  { intros s. destruct (choice_returns in_range colors s) as (a & s' & E & _);
      [discriminate|]. now exists a, s'. }
  intros color _.
  apply (returns_draw _ (fun _ => True) I).
  { intros s. destruct (uniform_returns (float_of 20.0) (float_of 150.0) s)
      as (u & s' & E). now exists u, s'. }
  intros u _. apply returns_ret. intros g Hg. now split.
Qed.

(** The catalog lists the product ids it was asked for, in order. *)
Lemma make_catalog_keeps (I : table F -> Prop) (pids : list Z) :
  returns (fun g => I (g_table g)) (make_catalog pids)
    (fun ps g => map p_pid ps = pids /\ I (g_table g)).
Proof.
  revert I. induction pids as [|pid pids IH]; intros I; simpl.
  - apply returns_ret. intros g Hg. now split.
  - eapply returns_bind; [apply (make_product_keeps I pid)|].
    intros p. eapply returns_bind.
    + apply (IH (fun t => p_pid p = pid /\ I t)).
    + intros ps. apply returns_ret. intros g (Hps & Hp & Hg). simpl.
      split; [now rewrite Hps, Hp | exact Hg].
Qed.

(** The two loops together: they return, the table they leave satisfies
    the invariant, and it holds an event of every product from 1 to
    [n_products]. *)
Lemma generate_keeps (n_products n_txns_per_product : Z) :
  returns (fun g => ledger_inv (g_table g))
    (generate n_products n_txns_per_product)
    (fun _ g =>
       ledger_inv (g_table g)
       /\ forall pid, 1 <= pid <= n_products -> has_product pid (g_table g)).
Proof.
  unfold generate.
  eapply returns_bind; [apply (make_catalog_keeps ledger_inv)|].
  intros catalog g [Hmap Hinv].
  destruct (seed_events_keep (fun _ => True) n_txns_per_product catalog
              (fun t e n H => H) g (conj Hinv I))
    as (u & g' & E & Hinv' & Hall & _).
  exists u, g'. split; [exact E|]. split; [exact Hinv'|].
  intros pid Hpid.
  assert (Hin : In pid (map p_pid catalog))
    by (rewrite Hmap; apply in_range_list; lia).
  apply in_map_iff in Hin as (p & <- & Hp). now apply Hall.
Qed.

Lemma new_transactions_inv : ledger_inv (@new_transactions F).
Proof.
  unfold ledger_inv. simpl.
  split; [reflexivity|]. split; [constructor|]. split; [reflexivity|].
  split; [lia|]. intros e [].
Qed.

(** [create_transactions_db] returns whenever the store opens; the file
    then holds the table that the two loops filled, starting from the
    empty table and the stream seeded with 42. *)
Lemma create_transactions_db_returns (db_name : string)
    (n_products n_txns_per_product : Z) (w : World F) :
  can_open w db_name = true ->
  exists g w',
    generate n_products n_txns_per_product
      (mk_gen (Random 42) new_transactions (wall_clock w) (ticks w))
      = (Ret tt, g)
    /\ create_transactions_db db_name n_products n_txns_per_product w
       = (Ret tt, w')
    /\ files w' db_name = Some (mk_db (Some (g_table g)))
    /\ can_open w' = can_open w
    /\ ledger_inv (g_table g)
    /\ forall pid, 1 <= pid <= n_products -> has_product pid (g_table g).
Proof.
  intros Hopen.
  destruct (generate_keeps n_products n_txns_per_product
              (mk_gen (Random 42) new_transactions (wall_clock w) (ticks w))
              new_transactions_inv) as ([] & g & Egen & Hinv & Hall).
  exists g. eexists.
  split; [exact Egen|].
  unfold create_transactions_db, bind, connect. rewrite Hopen.
  unfold drop_transactions, create_transactions, write_db, db_of, set_file.
  simpl. rewrite String.eqb_refl. simpl.
  unfold run_generator. simpl. rewrite Egen. simpl.
  split; [reflexivity|]. simpl.
  rewrite String.eqb_refl. split; [reflexivity|]. split; [reflexivity|].
  split; [exact Hinv | exact Hall].
Qed.

Lemma ledger_of_file (w : World F) (path : string) (t : table F) :
  files w path = Some (mk_db (Some t)) -> ledger w path = Some (rows t).
Proof. intros H. unfold ledger. now rewrite H. Qed.

(** ** The ledger that [create_transactions_db] writes *)

(** C5.  When the store opens, generation returns, and in the ledger it
    leaves the event with the smallest [id] of any product is an [insert]
    with a price and a positive quantity. *)
Theorem first_event_is_insert (db_name : string)
    (n_products n_txns_per_product : Z) (w : World F) :
  can_open w db_name = true ->
  exists w' log,
    create_transactions_db db_name n_products n_txns_per_product w = (Ret tt, w')
    /\ ledger w' db_name = Some log
    /\ forall e, In e log ->
         (forall e', In e' log -> product_id e' = product_id e -> id e <= id e') ->
         action e = "insert" /\ unit_price e <> None /\ 0 < qty_delta e.
Proof.
  intros Hopen.
  destruct (create_transactions_db_returns db_name n_products
              n_txns_per_product w Hopen)
    as (g & w' & _ & Hrun & Hfile & _ & Hinv & _).
  exists w', (rows (g_table g)).
  split; [exact Hrun|]. split; [now apply ledger_of_file|].
  intros e He Hmin.
  destruct Hinv as (_ & Hshape & _ & _ & Hfirst).
  assert (Hins : action e = "insert").
  { destruct (Hfirst e He) as [Hi|(e' & He' & Hp & Hlt)]; [exact Hi|].
    specialize (Hmin e' He' Hp). lia. }
  split; [exact Hins|].
  rewrite Forall_forall in Hshape.
  destruct (Hshape e He) as [(_ & Hq & Hp)|[(Ha & _)|[(Ha & _)|(Ha & _)]]];
    [split; [exact Hp | lia] | | |];
    rewrite Hins in Ha; discriminate.
Qed.

(** C6.  When the store opens, generation returns, and every event of the
    ledger it leaves has a positive [qty_delta] if it is an [insert] or a
    [restock], a negative one if it is a [sale] and zero if it is a
    [price_update]; it has a [unit_price] exactly when it is an [insert],
    a [sale] or a [price_update], and none when it is a [restock]. *)
Theorem event_signs_and_prices (db_name : string)
    (n_products n_txns_per_product : Z) (w : World F) :
  can_open w db_name = true ->
  exists w' log,
    create_transactions_db db_name n_products n_txns_per_product w = (Ret tt, w')
    /\ ledger w' db_name = Some log
    /\ forall e, In e log ->
         (action e = "insert" \/ action e = "restock" -> 0 < qty_delta e)
         /\ (action e = "sale" -> qty_delta e < 0)
         /\ (action e = "price_update" -> qty_delta e = 0)
         /\ (unit_price e <> None <->
             action e = "insert" \/ action e = "sale"
             \/ action e = "price_update")
         /\ (action e = "restock" -> unit_price e = None).
Proof.
  intros Hopen.
  destruct (create_transactions_db_returns db_name n_products
              n_txns_per_product w Hopen)
    as (g & w' & _ & Hrun & Hfile & _ & Hinv & _).
  exists w', (rows (g_table g)).
  split; [exact Hrun|]. split; [now apply ledger_of_file|].
  intros e He.
  destruct Hinv as (_ & Hshape & _).
  rewrite Forall_forall in Hshape.
  destruct (Hshape e He)
    as [(Ha & Hq & Hp)|[(Ha & Hq & Hp)|[(Ha & Hq & Hp)|(Ha & Hq & Hp)]]];
    rewrite Ha;
    (split; [intros [H|H]; (discriminate H || lia)|]);
    (split; [intros H; (discriminate H || lia)|]);
    (split; [intros H; (discriminate H || lia)|]);
    (split; [|intros H; (discriminate H || exact Hp)]).
  - split; [intros _; now left | intros _; exact Hp].
  - split; [intros H; now elim H | intros [H|[H|H]]; discriminate H].
  - split; [intros _; right; now left | intros _; exact Hp].
  - split; [intros _; right; now right | intros _; exact Hp].
Qed.

(** C8.  On a store that [create_transactions_db] has filled, at the
    path of a file, [get_schema] returns the line
    [table name: transactions] followed by one line [name (type)] per
    column, and these are the eleven columns of the declaration, in its
    order. *)
Theorem get_schema_of_generated_store (db_name : string)
    (n_products n_txns_per_product : Z) (w : World F) :
  file_path db_name = true ->
  can_open w db_name = true ->
  exists w' w'' t,
    create_transactions_db db_name n_products n_txns_per_product w = (Ret tt, w')
    /\ files w' db_name = Some (mk_db (Some t))
    /\ map col_name (columns t) =
         ["id"; "product_id"; "product_name"; "brand"; "category"; "color";
          "action"; "qty_delta"; "unit_price"; "notes"; "ts"]
    /\ get_schema db_name w' =
         (Ret ("table name: transactions" +++ nl +++
               "id (INTEGER)" +++ nl +++
               "product_id (INTEGER)" +++ nl +++
               "product_name (TEXT)" +++ nl +++
               "brand (TEXT)" +++ nl +++
               "category (TEXT)" +++ nl +++
               "color (TEXT)" +++ nl +++
               "action (TEXT)" +++ nl +++
               "qty_delta (INTEGER)" +++ nl +++
               "unit_price (REAL)" +++ nl +++
               "notes (TEXT)" +++ nl +++
               "ts (DATETIME)"), w'').
Proof.
  intros _ Hopen.
  destruct (create_transactions_db_returns db_name n_products
              n_txns_per_product w Hopen)
    as (g & w' & _ & Hrun & Hfile & Hcan & Hinv & _).
  destruct Hinv as (Hcols & _).
  exists w'. eexists. exists (g_table g).
  split; [exact Hrun|]. split; [exact Hfile|].
  split; [now rewrite Hcols|].
  unfold get_schema, bind, connect. rewrite Hcan, Hopen.
  unfold table_info, db_of. simpl. rewrite Hfile. simpl.
  rewrite Hfile. simpl. rewrite Hcols. reflexivity.
Qed.


(** ** One iteration of the follow-up loop *)

(** What an iteration does is decided by the stream alone: the row it
    appends and the price it leaves do not depend on the table. *)
Lemma followup_emits (p : product F) (current_price : F) (s : rng_state) :
  exists act qty price note current_price' s',
    (forall t clock n,
       followup p current_price (mk_gen s t clock n) =
       (Ret current_price',
        mk_gen s'
          (mk_table (columns t)
             (rows t ++ [mk_event (sqlite_seq t + 1) (p_pid p) (p_name p)
                           (p_brand p) (p_category p) (p_color p) act qty
                           price (Some note) (clock n)])
             (sqlite_seq t + 1))
          clock (S n)))
    /\ ((act = "restock" /\ 1 <= qty <= 25 /\ price = None
         /\ current_price' = current_price)
        \/ (act = "sale" /\ -10 <= qty <= -1 /\ price = Some current_price
            /\ current_price' = current_price)
        \/ (act = "price_update" /\ qty = 0 /\ price = Some current_price'
            /\ exists s0 u s1,
                 uniform (float_of (-5.0)) (float_of 5.0) s0 = (Ret u, s1)
                 /\ current_price' =
                    py_max (float_of 1.0)
                      (round2 (fadd current_price (round2 u))))).
Proof.
  destruct (choices1_returns ["restock"; "sale"; "price_update"]
              [float_of 0.25; float_of 0.6; float_of 0.15] s)
    as (event_type & s1 & E1 & _); [discriminate | reflexivity |].
  destruct (String.eqb event_type "restock") eqn:R1;
    [|destruct (String.eqb event_type "sale") eqn:R2].
  - destruct (randint_returns in_range 1 25 s1) as (qty & s2 & E2 & Hq); [lia|].
    exists "restock", qty, None, ("Restock +" +++ str_of_int qty +++ " units"),
      current_price, s2.
    split; [|left; now repeat split].
    intros t clock n. unfold followup, bind, draw.
    cbn [g_rng g_table g_clock g_ticks]. rewrite E1, R1.
    cbn [g_rng g_table g_clock g_ticks]. rewrite E2. reflexivity.
  - destruct (randint_returns in_range 1 10 s1) as (r & s2 & E2 & Hr); [lia|].
    exists "sale", (- r), (Some current_price),
      ("Sale " +++ str_of_int (- - r) +++ " units at " +++ repr current_price),
      current_price, s2.
    split; [|right; left; repeat split; lia].
    intros t clock n. unfold followup, bind, draw.
    cbn [g_rng g_table g_clock g_ticks]. rewrite E1, R1, R2.
    cbn [g_rng g_table g_clock g_ticks]. rewrite E2. reflexivity.
  - destruct (uniform_returns (float_of (-5.0)) (float_of 5.0) s1)
      as (u & s2 & E2).
    exists "price_update", 0,
      (Some (py_max (float_of 1.0) (round2 (fadd current_price (round2 u))))),
      ("Price update to "
       +++ repr (py_max (float_of 1.0) (round2 (fadd current_price (round2 u))))),
      (py_max (float_of 1.0) (round2 (fadd current_price (round2 u)))), s2.
    split.
    + intros t clock n. unfold followup, bind, draw.
      cbn [g_rng g_table g_clock g_ticks]. rewrite E1, R1, R2.
      cbn [g_rng g_table g_clock g_ticks]. rewrite E2. reflexivity.
    + right; right. repeat split. exists s1, u, s2. now split.
Qed.

(** ** The price that an iteration leaves *)

Section PriceUpdates.
Hypothesis laws : FloatLaws F.
Hypothesis unit_draws : random_in_unit.

Lemma flt_irrefl (x : F) : flt x x = false.
Proof.
  destruct (flt x x) eqn:E; [|reflexivity].
  pose proof (flt_asym _ laws x x E) as E'. congruence.
Qed.

(** [max(a, b)] is never below [a]. *)
Lemma py_max_floor (a b : F) : flt (py_max a b) a = false.
Proof.
  unfold py_max. destruct (flt a b) eqn:E.
  - now apply (flt_asym _ laws).
  - apply flt_irrefl.
Qed.

(** [round(uniform(-5.0, 5.0), 2)] lies between -5.0 and 5.0 when the
    draw of [random()] lies in the unit interval. *)
Lemma delta_bounds (r : F) :
  flt r (float_of 0) = false ->
  flt r (float_of 1) = true ->
  flt (round2 (fadd (float_of (-5.0))
                 (fmul (fsub (float_of 5.0) (float_of (-5.0))) r)))
      (float_of (-5.0)) = false
  /\ flt (float_of 5.0)
         (round2 (fadd (float_of (-5.0))
                    (fmul (fsub (float_of 5.0) (float_of (-5.0))) r)))
     = false.
Proof.
  intros Hlow Hhigh.
  assert (Elo : float_of (-5.0) = float_of (inject_Z (-5)))
    by (apply (float_of_value _ laws); reflexivity).
  assert (Ehi : float_of 5.0 = float_of (inject_Z 5))
    by (apply (float_of_value _ laws); reflexivity).
  rewrite Elo, Ehi.
  rewrite (fsub_int _ laws 5 (-5)) by (simpl; lia).
  change (5 - -5) with 10.
  assert (Hw : flt (float_of (inject_Z 10)) (float_of 0) = false)
    by (apply (float_of_mono _ laws); discriminate).
  split.
  - rewrite <- (round2_int _ laws (-5)) at 2 by (simpl; lia).
    apply (round2_mono _ laws).
    replace (float_of (inject_Z (-5)))
      with (fadd (float_of (inject_Z (-5)))
              (fmul (float_of (inject_Z 10)) (float_of (inject_Z 0)))) at 2.
    + apply (fadd_mono _ laws). now apply (fmul_mono _ laws).
    + rewrite (fmul_nat _ laws 10 0) by (simpl; lia).
      now rewrite (fadd_int _ laws (-5) (10 * 0)) by (simpl; lia).
  - rewrite <- (round2_int _ laws 5) at 1 by (simpl; lia).
    apply (round2_mono _ laws).
    replace (float_of (inject_Z 5))
      with (fadd (float_of (inject_Z (-5)))
              (fmul (float_of (inject_Z 10)) (float_of (inject_Z 1)))).
    + apply (fadd_mono _ laws). apply (fmul_mono _ laws); [exact Hw|].
      now apply (flt_asym _ laws).
    + rewrite (fmul_nat _ laws 10 1) by (simpl; lia).
      now rewrite (fadd_int _ laws (-5) (10 * 1)) by (simpl; lia).
Qed.


End PriceUpdates.

(** The quantity of a follow-up event is drawn without looking at the
    table: run on any other table, the iteration appends an event of the
    same kind and quantity. *)
Lemma followup_ignores_table (p : product F) (current_price : F)
    (g : gen_state F) (t' : table F) :
  exists current_price' g1 g2 e1 e2,
    followup p current_price g = (Ret current_price', g1)
    /\ followup p current_price
         (mk_gen (g_rng g) t' (g_clock g) (g_ticks g)) = (Ret current_price', g2)
    /\ rows (g_table g1) = rows (g_table g) ++ [e1]
    /\ rows (g_table g2) = rows t' ++ [e2]
    /\ action e1 = action e2 /\ qty_delta e1 = qty_delta e2.
Proof.
  destruct (followup_emits p current_price (g_rng g))
    as (act & qty & price & note & cp' & s' & Hrun & _).
  destruct g as [s t clock n]. simpl in *.
  do 5 eexists. split; [apply Hrun|]. split; [apply Hrun|].
  repeat split.
Qed.

(** ** Two runs of the generator *)

Lemma clock_blind_ret {A} (a : A) : clock_blind (ret a : M (gen_state F) A).
Proof. intros K g1 g2 H. now split. Qed.

Lemma clock_blind_bind {A B} (m : M (gen_state F) A)
    (k : A -> M (gen_state F) B) :
  clock_blind m -> (forall a, clock_blind (k a)) -> clock_blind (bind m k).
Proof.
  intros Hm Hk K g1 g2 H. unfold bind.
  destruct (Hm K g1 g2 H) as [Hr Hs].
  destruct (m g1) as [r1 g1'], (m g2) as [r2 g2']. simpl in Hr, Hs. subst r2.
  destruct r1 as [a|e]; [now apply Hk | now split].
Qed.

Lemma clock_blind_draw {A} (m : M rng_state A) : clock_blind (draw m).
Proof.
  intros K g1 g2 (Hrng & Hcols & Hseq & Hrows & Hclock). unfold draw.
  rewrite Hrng. destruct (m (g_rng g2)) as [r s'].
  split; [reflexivity|]. unfold agree. simpl. auto.
Qed.

Lemma clock_blind_getitem {A} (l : list A) (i : Z) :
  clock_blind (getitem l i : M (gen_state F) A).
Proof.
  intros K g1 g2 H. unfold getitem.
  destruct (_ || _); [now split|].
  destruct (nth_error l _); now split.
Qed.

Lemma clock_blind_insert (p : product F) (act : string) (qty : Z)
    (price : option F) (note : string) :
  clock_blind (insert_event p act qty price note).
Proof.
  intros K g1 g2 (Hrng & Hcols & Hseq & Hrows & Hclock).
  unfold insert_event. simpl. split; [reflexivity|].
  unfold agree. simpl. rewrite Hseq, !map_app, Hrows.
  repeat split; try assumption.
  - destruct (Hclock H) as [Hr Hc]. rewrite Hr.
    specialize (Hc O). rewrite !Nat.add_0_r in Hc. now rewrite Hc.
  - intros i. destruct (Hclock H) as [_ Hc].
    specialize (Hc (S i)). now rewrite !Nat.add_succ_r in Hc.
Qed.

Lemma clock_blind_followup (p : product F) (current_price : F) :
  clock_blind (followup p current_price).
Proof.
  unfold followup.
  apply clock_blind_bind; [apply clock_blind_draw|]. intros event_type.
  destruct (String.eqb event_type "restock");
    [|destruct (String.eqb event_type "sale")];
    (apply clock_blind_bind; [apply clock_blind_draw|]; intros x;
     apply clock_blind_bind; [apply clock_blind_insert|]; intros u;
     apply clock_blind_ret).
Qed.

Lemma clock_blind_followups (n : nat) (p : product F) (current_price : F) :
  clock_blind (followups n p current_price).
Proof.
  revert current_price. induction n as [|n IH]; intros current_price; simpl.
  - apply clock_blind_ret.
  - apply clock_blind_bind; [apply clock_blind_followup | exact IH].
Qed.

Lemma clock_blind_seed_events (n_txns_per_product : Z)
    (catalog : list (product F)) :
  clock_blind (seed_events n_txns_per_product catalog).
Proof.
  induction catalog as [|p catalog IH]; simpl.
  - apply clock_blind_ret.
  - apply clock_blind_bind; [|intros u; exact IH].
    unfold seed_product.
    apply clock_blind_bind; [apply clock_blind_draw|]; intros initial_stock.
    apply clock_blind_bind; [apply clock_blind_insert|]; intros u.
    apply clock_blind_bind; [apply clock_blind_followups|]; intros cp.
    apply clock_blind_ret.
Qed.

Lemma clock_blind_make_catalog (pids : list Z) :
  clock_blind (make_catalog pids).
Proof.
  induction pids as [|pid pids IH]; simpl.
  - apply clock_blind_ret.
  - apply clock_blind_bind.
    + unfold make_product.
      apply clock_blind_bind; [apply clock_blind_draw|]; intros b.
      apply clock_blind_bind; [apply clock_blind_draw|]; intros c.
      apply clock_blind_bind; [apply clock_blind_getitem|]; intros brand.
      apply clock_blind_bind; [apply clock_blind_getitem|]; intros category.
      apply clock_blind_bind; [apply clock_blind_draw|]; intros color.
      apply clock_blind_bind; [apply clock_blind_draw|]; intros u.
      apply clock_blind_ret.
    + intros p. apply clock_blind_bind; [exact IH|]. intros ps.
      apply clock_blind_ret.
Qed.

Lemma clock_blind_generate (n_products n_txns_per_product : Z) :
  clock_blind (generate n_products n_txns_per_product).
Proof.
  unfold generate. apply clock_blind_bind; [apply clock_blind_make_catalog|].
  intros catalog. apply clock_blind_seed_events.
Qed.


End GeneratorProperties.

(** ** The concrete streams keep the contract of [_randbelow] *)

Lemma lcg_in_range : @randbelow_in_range Q lcg.
Proof.
  intros n s Hn. simpl. apply Z.mod_pos_bound. exact Hn.
Qed.

Lemma low_stock_in_range : @randbelow_in_range Q low_stock.
Proof.
  intros n s Hn. simpl. destruct (s =? 4); lia.
Qed.

(** ** The sample floats and streams keep the contracts *)

Lemma exact_flt_false (x y : Q) :
  @flt Q exact_floats y x = false <-> (x <= y)%Q.
Proof.
  simpl. rewrite Qle_alt, <- (Qcompare_antisym y x).
  destruct (y ?= x)%Q; simpl; intuition congruence.
Qed.

Lemma exact_flt_true (x y : Q) :
  @flt Q exact_floats x y = true <-> (x < y)%Q.
Proof.
  simpl. rewrite Qlt_alt. destruct (x ?= y)%Q; intuition congruence.
Qed.

Lemma round2_exact_int (a : Z) :
  (Qmake (Qfloor (Qred (inject_Z a) * 100 + 0.5)) 100 == inject_Z a)%Q.
Proof.
  assert (E : Qfloor (Qred (inject_Z a) * 100 + 0.5) = a * 100).
  { rewrite (Qfloor_comp _ (Qmake (a * 200 + 1) 2)).
    - unfold Qfloor. symmetry. apply Z.div_unique with (r := 1); lia.
    - rewrite Qred_correct. unfold Qeq, inject_Z, Qplus, Qmult. simpl. lia. }
  rewrite E. unfold Qeq, inject_Z. simpl. lia.
Qed.

Lemma exact_floats_laws : FloatLaws Q.
Proof.
  split.
  - intros x y E. now apply Qred_complete.
  - intros x y Hle. apply exact_flt_false.
    change (Qred x <= Qred y)%Q. now apply Qred_le.
  - intros x y Hlt. apply exact_flt_false. apply exact_flt_true in Hlt.
    now apply Qlt_le_weak.
  - intros a x y Hle. apply exact_flt_false in Hle. apply exact_flt_false.
    change (Qred (a + x) <= Qred (a + y))%Q.
    apply Qred_le. now apply Qplus_le_r.
  - intros c x y Hc Hle. apply exact_flt_false in Hc, Hle.
    change (Qred 0 <= c)%Q in Hc. rewrite Qred_correct in Hc.
    apply exact_flt_false.
    change (Qred (c * x) <= Qred (c * y))%Q. apply Qred_le.
    rewrite (Qmult_comm c x), (Qmult_comm c y).
    apply Qmult_le_compat_r; [exact Hle | exact Hc].
  - intros x y Hle. apply exact_flt_false in Hle. apply exact_flt_false.
    change (Qred (Qmake (Qfloor (x * 100 + 0.5)) 100)
            <= Qred (Qmake (Qfloor (y * 100 + 0.5)) 100))%Q.
    apply Qred_le.
    assert (H : Qfloor (x * 100 + 0.5) <= Qfloor (y * 100 + 0.5)).
    { apply Qfloor_resp_le. apply Qplus_le_l.
      apply Qmult_le_compat_r; [exact Hle | discriminate]. }
    unfold Qle. cbn [Qnum Qden]. lia.
  - intros a b _ _ _.
    change (Qred (Qred (inject_Z a) + Qred (inject_Z b))
            = Qred (inject_Z (a + b))).
    apply Qred_complete. now rewrite !Qred_correct, inject_Z_plus.
  - intros a b _ _ _.
    change (Qred (Qred (inject_Z a) - Qred (inject_Z b))
            = Qred (inject_Z (a - b))).
    apply Qred_complete. rewrite !Qred_correct. unfold Z.sub.
    now rewrite inject_Z_plus, inject_Z_opp.
  - intros a b _ _ _.
    change (Qred (Qred (inject_Z a) * Qred (inject_Z b))
            = Qred (inject_Z (a * b))).
    apply Qred_complete. now rewrite !Qred_correct, inject_Z_mult.
  - intros a _.
    change (Qred (Qmake (Qfloor (Qred (inject_Z a) * 100 + 0.5)) 100)
            = Qred (inject_Z a)).
    apply Qred_complete. apply round2_exact_int.
Qed.

Lemma float_script_in_range (first rest : Q) :
  @randbelow_in_range Q (float_script first rest).
Proof. intros n s Hn. simpl. lia. Qed.

Lemma float_script_in_unit (first rest : Q) :
  (0 <= first)%Q -> (first < 1)%Q -> (0 <= rest)%Q -> (rest < 1)%Q ->
  @random_in_unit Q exact_floats (float_script first rest).
Proof.
  intros H1 H2 H3 H4 s. cbn [random float_script fst].
  split.
  - apply exact_flt_false. destruct (s =? 0); assumption.
  - apply exact_flt_true. destruct (s =? 0); assumption.
Qed.

(** ** The theorems at concrete inputs *)



Lemma first_event_is_insert_witness :
  exists w' log,
    @create_transactions_db Q exact_floats lcg "products.db" 3 5 (empty_world "2025-01-01 00:00:00")
      = (Ret tt, w')
    /\ ledger w' "products.db" = Some log
    /\ forall e, In e log ->
         (forall e', In e' log -> product_id e' = product_id e -> id e <= id e') ->
         action e = "insert" /\ unit_price e <> None /\ 0 < qty_delta e.
Proof.
  exact (@first_event_is_insert Q exact_floats lcg lcg_in_range "products.db" 3 5
           (empty_world "2025-01-01 00:00:00") eq_refl).
Defined.

Lemma event_signs_and_prices_witness :
  exists w' log,
    @create_transactions_db Q exact_floats lcg "products.db" 3 5 (empty_world "2025-01-01 00:00:00")
      = (Ret tt, w')
    /\ ledger w' "products.db" = Some log
    /\ forall e, In e log ->
         (action e = "insert" \/ action e = "restock" -> 0 < qty_delta e)
         /\ (action e = "sale" -> qty_delta e < 0)
         /\ (action e = "price_update" -> qty_delta e = 0)
         /\ (unit_price e <> None <->
             action e = "insert" \/ action e = "sale"
             \/ action e = "price_update")
         /\ (action e = "restock" -> unit_price e = None).
Proof.
  exact (@event_signs_and_prices Q exact_floats lcg lcg_in_range "products.db" 3 5
           (empty_world "2025-01-01 00:00:00") eq_refl).
Defined.

Lemma get_schema_of_generated_store_witness :
  exists w' w'' t,
    @create_transactions_db Q exact_floats lcg "products.db" 3 5 (empty_world "2025-01-01 00:00:00")
      = (Ret tt, w')
    /\ files w' "products.db" = Some (mk_db (Some t))
    /\ map col_name (columns t) =
         ["id"; "product_id"; "product_name"; "brand"; "category"; "color";
          "action"; "qty_delta"; "unit_price"; "notes"; "ts"]
    /\ get_schema "products.db" w' =
         (Ret ("table name: transactions" +++ nl +++
               "id (INTEGER)" +++ nl +++
               "product_id (INTEGER)" +++ nl +++
               "product_name (TEXT)" +++ nl +++
               "brand (TEXT)" +++ nl +++
               "category (TEXT)" +++ nl +++
               "color (TEXT)" +++ nl +++
               "action (TEXT)" +++ nl +++
               "qty_delta (INTEGER)" +++ nl +++
               "unit_price (REAL)" +++ nl +++
               "notes (TEXT)" +++ nl +++
               "ts (DATETIME)"), w'').
Proof.
  exact (@get_schema_of_generated_store Q exact_floats lcg lcg_in_range "products.db" 3 5
           (empty_world "2025-01-01 00:00:00") eq_refl eq_refl).
Defined.


(** ** Quantities and stock *)

Section Quantities.
Context {F : Type} {FO : FloatOps F} {RS : RandomSource F}.
Hypothesis in_range : randbelow_in_range.

(** The quantity of every generated event lies in the range of its kind. *)
Lemma event_quantities_in_range (db_name : string)
    (n_products n_txns_per_product : Z) (w : World F) :
  can_open w db_name = true ->
  exists w' log,
    create_transactions_db db_name n_products n_txns_per_product w = (Ret tt, w')
    /\ ledger w' db_name = Some log
    /\ forall e, In e log ->
         (action e = "insert" -> 5 <= qty_delta e <= 50)
         /\ (action e = "restock" -> 1 <= qty_delta e <= 25)
         /\ (action e = "sale" -> -10 <= qty_delta e <= -1).
Proof.
  intros Hopen.
  destruct (create_transactions_db_returns in_range db_name n_products
              n_txns_per_product w Hopen)
    as (g & w' & _ & Hrun & Hfile & _ & Hinv & _).
  exists w', (rows (g_table g)).
  split; [exact Hrun|]. split; [now apply ledger_of_file|].
  intros e He.
  destruct Hinv as (_ & Hshape & _).
  rewrite Forall_forall in Hshape.
  destruct (Hshape e He)
    as [(Ha & Hq & _)|[(Ha & Hq & _)|[(Ha & Hq & _)|(Ha & Hq & _)]]];
    rewrite Ha; (split; [intros H | split; intros H]);
    (discriminate H || lia).
Qed.

End Quantities.

(** C10.  Whatever the stream, every generated quantity lies in the range
    of its kind: 5 to 50 for the opening stock, 1 to 25 for a restock,
    -10 to -1 for a sale.  The quantity of a follow-up event is drawn
    without reading the table, so it does not depend on the stock of the
    product.  And nothing keeps the stock above zero: with a stream
    that draws the least opening stock and then the largest sale, the
    stock of product 1 after its second event is negative. *)
Theorem quantities_bounded_stock_unguarded :
  (forall (F : Type) (FO : FloatOps F) (RS : RandomSource F),
      randbelow_in_range ->
      forall (db_name : string) (n_products n_txns_per_product : Z)
             (w : World F),
        can_open w db_name = true ->
        exists w' log,
          create_transactions_db db_name n_products n_txns_per_product w
            = (Ret tt, w')
          /\ ledger w' db_name = Some log
          /\ forall e, In e log ->
               (action e = "insert" -> 5 <= qty_delta e <= 50)
               /\ (action e = "restock" -> 1 <= qty_delta e <= 25)
               /\ (action e = "sale" -> -10 <= qty_delta e <= -1))
  /\ (forall (F : Type) (FO : FloatOps F) (RS : RandomSource F),
        randbelow_in_range ->
        forall (p : product F) (current_price : F) (g : gen_state F)
               (t' : table F),
        exists current_price' g1 g2 e1 e2,
          followup p current_price g = (Ret current_price', g1)
          /\ followup p current_price
               (mk_gen (g_rng g) t' (g_clock g) (g_ticks g))
             = (Ret current_price', g2)
          /\ rows (g_table g1) = rows (g_table g) ++ [e1]
          /\ rows (g_table g2) = rows t' ++ [e2]
          /\ action e1 = action e2 /\ qty_delta e1 = qty_delta e2)
  /\ (@randbelow_in_range Q low_stock
      /\ exists w' log,
           @create_transactions_db Q exact_floats low_stock "products.db" 1 2
             (empty_world "2025-01-01 00:00:00") = (Ret tt, w')
           /\ ledger w' "products.db" = Some log
           /\ map qty_delta log = [5; -10]
           /\ stock log 1 2 < 0).
Proof.
  split; [|split].
  - intros F FO RS Hrange. apply event_quantities_in_range, Hrange.
  - intros F FO RS Hrange. apply followup_ignores_table, Hrange.
  - split; [exact low_stock_in_range|].
    eexists. eexists.
    split; [vm_compute; reflexivity|].
    split; [vm_compute; reflexivity|].
    split; [vm_compute; reflexivity|].
    vm_compute. reflexivity.
Qed.

(** ** Two generated ledgers, as the model computes them *)

(** Two products with four events each, from the linear congruential
    stream: rowid, product, action and quantity of every row. *)
Example generated_ledger_sample :
  option_map (map (fun e => (id e, product_id e, action e, qty_delta e)))
    (ledger (snd (@create_transactions_db Q exact_floats lcg "products.db" 2 4
                    (empty_world "2025-01-01 00:00:00"))) "products.db")
  = Some [(1, 1, "insert", 14); (2, 1, "sale", -3);
          (3, 1, "price_update", 0); (4, 1, "restock", 9);
          (5, 2, "insert", 49); (6, 2, "sale", -4);
          (7, 2, "restock", 13); (8, 2, "restock", 9)].
Proof. vm_compute. reflexivity. Qed.

(** [name.split()] cuts the brand "New Balance" in two: the row of such a
    product carries the brand "New" and the category "Balance". *)
Example two_word_brand_is_split :
  option_map (map (fun e => (product_name e, brand e, category e)))
    (ledger (snd (@create_transactions_db Q exact_floats low_stock
                    "products.db" 1 1 (empty_world "2025-01-01 00:00:00")))
       "products.db")
  = Some [("New Balance backpack", "New", "Balance")].
Proof. vm_compute. reflexivity. Qed.

(** * Further properties of the generator *)

(** ** What the loops insert *)

Section LedgerStructure.
Context {F : Type} {FO : FloatOps F} {RS : RandomSource F}.
Hypothesis in_range : randbelow_in_range.

Lemma stamp_app (seq : Z) (clock : nat -> Timestamp) (k : nat)
    (l1 l2 : list (Event F)) :
  stamp seq clock k (l1 ++ l2) =
  stamp seq clock k l1
  ++ stamp (seq + Z.of_nat (List.length l1)) clock (List.length l1 + k) l2.
Proof.
  revert seq k. induction l1 as [|e l1 IH]; intros seq k.
  - simpl. now rewrite Z.add_0_r.
  - cbn [stamp app List.length]. rewrite IH.
    replace (seq + 1 + Z.of_nat (List.length l1))
      with (seq + Z.of_nat (S (List.length l1))) by lia.
    replace (List.length l1 + S k)%nat with (S (List.length l1) + k)%nat by lia.
    reflexivity.
Qed.

Lemma run_to_app (s1 s2 : rng_state) (l1 l2 : list (Event F))
    (g : gen_state F) :
  run_to s2 l2 (run_to s1 l1 g) = run_to s2 (l1 ++ l2) g.
Proof.
  unfold run_to. cbn [g_table g_clock g_ticks columns rows sqlite_seq].
  rewrite stamp_app, <- app_assoc, length_app.
  f_equal; [f_equal; lia | lia].
Qed.

Lemma run_to_nil (s' : rng_state) (g : gen_state F) :
  run_to s' [] g = mk_gen s' (g_table g) (g_clock g) (g_ticks g).
Proof.
  unfold run_to. destruct g as [s [cols rws seq] clock k]. simpl.
  now rewrite app_nil_r, Z.add_0_r.
Qed.

Lemma emits_ret {A} (a : A) (s : rng_state) :
  emits (ret a : M (gen_state F) A) s a s [].
Proof.
  intros g <-. unfold ret. rewrite run_to_nil. now destruct g.
Qed.

Lemma emits_bind {A B} (m : M (gen_state F) A) (k : A -> M (gen_state F) B)
    (s s1 s2 : rng_state) (a : A) (b : B) (l1 l2 : list (Event F)) :
  emits m s a s1 l1 -> emits (k a) s1 b s2 l2 ->
  emits (bind m k) s b s2 (l1 ++ l2).
Proof.
  intros Hm Hk g Hg. unfold bind. rewrite (Hm g Hg).
  rewrite (Hk (run_to s1 l1 g) eq_refl). now rewrite run_to_app.
Qed.

Lemma emits_draw {A} (m : M rng_state A) (s s' : rng_state) (a : A) :
  m s = (Ret a, s') -> emits (draw m) s a s' [].
Proof.
  intros E g <-. unfold draw. rewrite E. now rewrite run_to_nil.
Qed.

Lemma emits_getitem {A} (l : list A) (i : Z) (a : A) (s : rng_state) :
  0 <= i < Z.of_nat (List.length l) ->
  nth_error l (Z.to_nat i) = Some a ->
  emits (getitem l i : M (gen_state F) A) s a s [].
Proof.
  intros Hi Hn g <-.
  destruct (getitem_in_range l i g Hi) as (a' & E & Hn').
  rewrite E. rewrite Hn in Hn'. injection Hn' as <-.
  rewrite run_to_nil. now destruct g.
Qed.

Lemma emits_insert (p : product F) (act : string) (qty : Z)
    (price : option F) (note : string) (s : rng_state) :
  emits (insert_event p act qty price note) s tt s
    [mk_event 0 (p_pid p) (p_name p) (p_brand p) (p_category p) (p_color p)
       act qty price (Some note) ""].
Proof. intros g <-. reflexivity. Qed.

(** One iteration of the follow-up loop inserts one row of the product;
    the row and the running price it leaves are as [price_chain] reads
    them, and its note describes it. *)
Lemma followup_writes (p : product F) (cp : F) (s : rng_state) :
  exists e cp' s',
    emits (followup p cp) s cp' s' [e]
    /\ of_product p e /\ notes e = Some (describe e)
    /\ action e <> "insert"
    /\ (forall l, price_chain cp' l -> price_chain cp (e :: l)).
Proof.
  destruct (choices1_returns ["restock"; "sale"; "price_update"]
              [float_of 0.25; float_of 0.6; float_of 0.15] s)
    as (event_type & s1 & E1 & _); [discriminate | reflexivity |].
  pose proof (emits_draw _ _ _ _ E1) as D1.
  unfold followup.
  destruct (String.eqb event_type "restock") eqn:R1;
    [|destruct (String.eqb event_type "sale") eqn:R2].
  - destruct (randint_returns in_range 1 25 s1) as (qty & s2 & E2 & Hq); [lia|].
    do 3 eexists. split.
    + eapply (emits_bind _ _ _ _ _ _ _ [] [_] D1). rewrite R1.
      eapply (emits_bind _ _ _ _ _ _ _ [] [_] (emits_draw _ _ _ _ E2)).
      eapply (emits_bind _ _ _ _ _ _ _ [_] [] (emits_insert _ _ _ _ _ _)).
      apply emits_ret.
    + split; [now repeat split|]. split; [reflexivity|].
      split; [discriminate|]. intros l Hl. now apply chain_restock.
  - destruct (randint_returns in_range 1 10 s1) as (r & s2 & E2 & Hr); [lia|].
    do 3 eexists. split.
    + eapply (emits_bind _ _ _ _ _ _ _ [] [_] D1). rewrite R1, R2.
      eapply (emits_bind _ _ _ _ _ _ _ [] [_] (emits_draw _ _ _ _ E2)).
      eapply (emits_bind _ _ _ _ _ _ _ [_] [] (emits_insert _ _ _ _ _ _)).
      apply emits_ret.
    + split; [now repeat split|]. split; [reflexivity|].
      split; [discriminate|]. intros l Hl. now apply chain_sale.
  - destruct (uniform_returns (float_of (-5.0)) (float_of 5.0) s1)
      as (u & s2 & E2).
    do 3 eexists. split.
    + eapply (emits_bind _ _ _ _ _ _ _ [] [_] D1). rewrite R1, R2.
      eapply (emits_bind _ _ _ _ _ _ _ [] [_] (emits_draw _ _ _ _ E2)).
      eapply (emits_bind _ _ _ _ _ _ _ [_] [] (emits_insert _ _ _ _ _ _)).
      apply emits_ret.
    + split; [now repeat split|]. split; [reflexivity|].
      split; [discriminate|]. intros l Hl. eapply chain_update; [reflexivity | reflexivity | exact Hl].
Qed.

Lemma followups_write (n : nat) (p : product F) (cp : F) (s : rng_state) :
  exists l cp' s',
    emits (followups n p cp) s cp' s' l
    /\ List.length l = n
    /\ Forall (fun e => of_product p e /\ notes e = Some (describe e)) l
    /\ Forall (fun e => action e <> "insert") l
    /\ price_chain cp l.
Proof.
  revert cp s. induction n as [|n IH]; intros cp s.
  - exists [], cp, s. split; [apply emits_ret|].
    repeat split; constructor.
  - destruct (followup_writes p cp s)
      as (e & cp1 & s1 & He & Hp & Hnote & Hact & Hchain).
    destruct (IH cp1 s1) as (l & cp' & s' & Hl & Hlen & Hrows & Hacts & Hc).
    exists (e :: l), cp', s'. split.
    + exact (emits_bind _ _ _ _ _ _ _ [e] l He Hl).
    + split; [simpl; now rewrite Hlen|].
      split; [constructor; [now split | exact Hrows]|].
      split; [now constructor | now apply Hchain].
Qed.

(** The second loop inserts, for one product, a block of rows. *)
Lemma seed_product_writes (k : Z) (p : product F) (s : rng_state) :
  exists l s', emits (seed_product k p) s tt s' l /\ product_block k p l.
Proof.
  destruct (randint_returns in_range 5 50 s) as (stock0 & s1 & E1 & Hq); [lia|].
  destruct (followups_write (Z.to_nat (k - 1)) p (p_base_price p) s1)
    as (l & cp' & s' & Hl & Hlen & Hrows & Hacts & Hc).
  eexists (_ :: l), s'. split.
  - unfold seed_product.
    eapply (emits_bind _ _ _ _ _ _ _ [] (_ :: l) (emits_draw _ _ _ _ E1)).
    eapply (emits_bind _ _ _ _ _ _ _ [_] l (emits_insert _ _ _ _ _ _)).
    rewrite <- (app_nil_r l).
    eapply (emits_bind _ _ _ _ _ _ _ l [] Hl). apply emits_ret.
  - eexists. exists l. split; [reflexivity|].
    split; [reflexivity|]. split; [reflexivity|]. split; [exact Hlen|].
    split; [exact Hacts|]. split; [exact Hc|].
    constructor; [|exact Hrows]. split; [now repeat split | reflexivity].
Qed.

Lemma seed_events_write (k : Z) (catalog : list (product F)) (s : rng_state) :
  exists blocks s',
    emits (seed_events k catalog) s tt s' (List.concat blocks)
    /\ Forall2 (product_block k) catalog blocks.
Proof.
  revert s. induction catalog as [|p catalog IH]; intros s.
  - exists [], s. split; [apply emits_ret | constructor].
  - destruct (seed_product_writes k p s) as (l & s1 & Hl & Hblock).
    destruct (IH s1) as (blocks & s' & Hrest & Hblocks).
    exists (l :: blocks), s'. split.
    + exact (emits_bind _ _ _ _ _ _ _ l (List.concat blocks) Hl Hrest).
    + now constructor.
Qed.

(** The first loop inserts nothing; each entry is built as
    [catalog_entry] says. *)
Lemma make_product_writes (pid : Z) (s : rng_state) :
  exists p s',
    emits (make_product pid) s p s' [] /\ p_pid p = pid /\ catalog_entry p.
Proof.
  destruct (choice_returns in_range brands s) as (b & s1 & E1 & Hb);
    [discriminate|].
  destruct (choice_returns in_range categories s1) as (c & s2 & E2 & Hc);
    [discriminate|].
  pose proof (split_name_has_two_words b c Hb Hc) as Hwords.
  destruct (nth_error (split (b +++ " " +++ c)) 0) as [brand0|] eqn:N0;
    [|apply nth_error_None in N0; lia].
  destruct (nth_error (split (b +++ " " +++ c)) 1) as [category0|] eqn:N1;
    [|apply nth_error_None in N1; lia].
  destruct (choice_returns in_range colors s2) as (color0 & s3 & E3 & Hcol);
    [discriminate|].
  destruct (uniform_returns (float_of 20.0) (float_of 150.0) s3)
    as (u & s4 & E4).
  assert (H0 : 0 <= 0 < Z.of_nat (List.length (split (b +++ " " +++ c))))
    by lia.
  assert (H1 : 0 <= 1 < Z.of_nat (List.length (split (b +++ " " +++ c))))
    by lia.
  eexists. exists s4. split.
  - unfold make_product.
    eapply (emits_bind _ _ _ _ _ _ _ [] [] (emits_draw _ _ _ _ E1)).
    eapply (emits_bind _ _ _ _ _ _ _ [] [] (emits_draw _ _ _ _ E2)).
    eapply (emits_bind _ _ _ _ _ _ _ [] [] (emits_getitem _ 0 _ _ H0 N0)).
    eapply (emits_bind _ _ _ _ _ _ _ [] [] (emits_getitem _ 1 _ _ H1 N1)).
    eapply (emits_bind _ _ _ _ _ _ _ [] [] (emits_draw _ _ _ _ E3)).
    eapply (emits_bind _ _ _ _ _ _ _ [] [] (emits_draw _ _ _ _ E4)).
    apply emits_ret.
  - split; [reflexivity|]. exists b, c. simpl. now repeat split.
Qed.

Lemma make_catalog_writes (pids : list Z) (s : rng_state) :
  exists ps s',
    emits (make_catalog pids) s ps s' []
    /\ map p_pid ps = pids /\ Forall catalog_entry ps.
Proof.
  revert s. induction pids as [|pid pids IH]; intros s.
  - exists [], s. split; [apply emits_ret|]. split; [reflexivity | constructor].
  - destruct (make_product_writes pid s) as (p & s1 & Hp & Hpid & Hentry).
    destruct (IH s1) as (ps & s' & Hps & Hmap & Hentries).
    exists (p :: ps), s'. split.
    + simpl.
      eapply (emits_bind _ _ _ _ _ _ _ [] [] Hp).
      eapply (emits_bind _ _ _ _ _ _ _ [] [] Hps). apply emits_ret.
    + split; [simpl; now rewrite Hpid, Hmap | now constructor].
Qed.

Lemma generate_writes (n_products n_txns_per_product : Z) (s : rng_state) :
  exists catalog blocks s',
    emits (generate n_products n_txns_per_product) s tt s' (List.concat blocks)
    /\ map p_pid catalog = range 1 (n_products + 1)
    /\ Forall catalog_entry catalog
    /\ Forall2 (product_block n_txns_per_product) catalog blocks.
Proof.
  destruct (make_catalog_writes (range 1 (n_products + 1)) s)
    as (catalog & s1 & Hcat & Hmap & Hentries).
  destruct (seed_events_write n_txns_per_product catalog s1)
    as (blocks & s' & Hev & Hblocks).
  exists catalog, blocks, s'. split; [|now repeat split].
  exact (emits_bind _ _ _ _ _ _ _ [] (List.concat blocks) Hcat Hev).
Qed.

(** ** From the inserted rows to the stored rows *)

Lemma stamp_length (seq : Z) (clock : nat -> Timestamp) (k : nat)
    (l : list (Event F)) :
  List.length (stamp seq clock k l) = List.length l.
Proof.
  revert seq k. induction l as [|e l IH]; intros seq k; simpl;
    [reflexivity | now rewrite IH].
Qed.

Lemma Forall_stamp (P : Event F -> Prop) (seq : Z) (clock : nat -> Timestamp)
    (k : nat) (l : list (Event F)) :
  (forall e i t, P e -> P (stamp_row e i t)) ->
  Forall P l -> Forall P (stamp seq clock k l).
Proof.
  intros HP Hl. revert seq k.
  induction Hl as [|e l He Hl IH]; intros seq k; simpl; constructor; auto.
Qed.

Lemma price_chain_stamp (cp : F) (seq : Z) (clock : nat -> Timestamp)
    (k : nat) (l : list (Event F)) :
  price_chain cp l -> price_chain cp (stamp seq clock k l).
Proof.
  intros Hl. revert seq k.
  induction Hl as [cp|cp e l Ha Hp Hl IH|cp e l Ha Hp Hl IH
                   |cp cp' e l Ha Hp Hl IH]; intros seq k; simpl.
  - constructor.
  - now apply chain_restock.
  - now apply chain_sale.
  - now apply chain_update with (cp' := cp').
Qed.

Lemma product_block_stamp (n : Z) (p : product F) (seq : Z)
    (clock : nat -> Timestamp) (k : nat) (l : list (Event F)) :
  product_block n p l -> product_block n p (stamp seq clock k l).
Proof.
  intros (first & rest & -> & Ha & Hp & Hlen & Hacts & Hchain & Hrows).
  exists (stamp_row first (seq + 1) (clock k)),
    (stamp (seq + 1) clock (S k) rest).
  split; [reflexivity|]. split; [exact Ha|]. split; [exact Hp|].
  split; [now rewrite stamp_length|].
  split; [apply Forall_stamp; [now intros e i t He | exact Hacts]|].
  split; [now apply price_chain_stamp|].
  apply (Forall_stamp _ seq clock k (first :: rest)); [|exact Hrows].
  now intros e i t He.
Qed.

Lemma stamp_blocks (n : Z) (catalog : list (product F))
    (blocks : list (list (Event F))) (seq : Z) (clock : nat -> Timestamp)
    (k : nat) :
  Forall2 (product_block n) catalog blocks ->
  exists blocks',
    stamp seq clock k (List.concat blocks) = List.concat blocks'
    /\ Forall2 (product_block n) catalog blocks'.
Proof.
  intros H. revert seq k.
  induction H as [|p l catalog blocks Hl Hrest IH]; intros seq k.
  - exists []. split; [reflexivity | constructor].
  - destruct (IH (seq + Z.of_nat (List.length l)) (List.length l + k)%nat)
      as (blocks' & E & Hblocks').
    exists (stamp seq clock k l :: blocks'). split.
    + simpl. now rewrite stamp_app, E.
    + constructor; [now apply product_block_stamp | exact Hblocks'].
Qed.

(** The ledger that [create_transactions_db] leaves is one block of rows
    per product, in the order of the product ids 1, 2, ...,
    [n_products]. *)
Lemma generated_ledger_blocks (db_name : string)
    (n_products n_txns_per_product : Z) (w : World F) :
  can_open w db_name = true ->
  exists w' catalog blocks,
    create_transactions_db db_name n_products n_txns_per_product w = (Ret tt, w')
    /\ ledger w' db_name = Some (List.concat blocks)
    /\ map p_pid catalog = range 1 (n_products + 1)
    /\ Forall catalog_entry catalog
    /\ Forall2 (product_block n_txns_per_product) catalog blocks.
Proof.
  intros Hopen.
  destruct (create_transactions_db_returns in_range db_name n_products
              n_txns_per_product w Hopen)
    as (g & w' & Egen & Hrun & Hfile & _).
  destruct (generate_writes n_products n_txns_per_product (Random 42))
    as (catalog & blocks & s' & Hem & Hmap & Hentries & Hblocks).
  rewrite (Hem (mk_gen (Random 42) new_transactions (wall_clock w) (ticks w))
             eq_refl) in Egen.
  injection Egen as <-.
  destruct (stamp_blocks n_txns_per_product catalog blocks 0 (wall_clock w)
              (ticks w) Hblocks) as (blocks' & E & Hblocks').
  exists w', catalog, blocks'.
  split; [exact Hrun|]. split; [|now repeat split].
  rewrite (ledger_of_file _ _ _ Hfile). simpl. now rewrite E.
Qed.

(** The same, read from a run that returned. *)
Lemma generated_ledger_of_run (db_name : string)
    (n_products n_txns_per_product : Z) (w w' : World F)
    (log : list (Event F)) :
  create_transactions_db db_name n_products n_txns_per_product w = (Ret tt, w') ->
  ledger w' db_name = Some log ->
  exists catalog blocks,
    log = List.concat blocks
    /\ map p_pid catalog = range 1 (n_products + 1)
    /\ Forall catalog_entry catalog
    /\ Forall2 (product_block n_txns_per_product) catalog blocks
    /\ Forall row_shape log.
Proof.
  intros Hrun Hlog.
  destruct (can_open w db_name) eqn:Hopen.
  - destruct (generated_ledger_blocks db_name n_products n_txns_per_product
                w Hopen)
      as (w1 & catalog & blocks & Hrun1 & Hlog1 & Hmap & Hentries & Hblocks).
    destruct (create_transactions_db_returns in_range db_name n_products
                n_txns_per_product w Hopen)
      as (g & w2 & _ & Hrun2 & Hfile & _ & Hinv & _).
    rewrite Hrun in Hrun1, Hrun2.
    injection Hrun1 as <-. injection Hrun2 as <-.
    rewrite Hlog in Hlog1. injection Hlog1 as ->.
    exists catalog, blocks. repeat (split; [assumption || reflexivity|]).
    rewrite (ledger_of_file _ _ _ Hfile) in Hlog. injection Hlog as Hrows.
    rewrite <- Hrows. now destruct Hinv as (_ & Hshape & _).
  - unfold create_transactions_db, bind in Hrun.
    rewrite (connect_refused db_name w Hopen) in Hrun. discriminate Hrun.
Qed.

(** ** The ledger, product by product *)

Lemma block_product_ids (k : Z) (p : product F) (l : list (Event F)) :
  product_block k p l ->
  map product_id l = repeat (p_pid p) (Z.to_nat (Z.max 1 k)).
Proof.
  intros (first & rest & -> & _ & _ & Hlen & _ & _ & Hrows).
  replace (Z.to_nat (Z.max 1 k)) with (List.length (first :: rest))
    by (simpl; lia).
  induction Hrows as [|e l [(Hpid & _) _] _ IH]; simpl;
    [reflexivity | now rewrite Hpid, IH].
Qed.

Lemma blocks_product_ids (k : Z) (catalog : list (product F))
    (blocks : list (list (Event F))) :
  Forall2 (product_block k) catalog blocks ->
  map product_id (List.concat blocks) =
  flat_map (fun pid => repeat pid (Z.to_nat (Z.max 1 k))) (map p_pid catalog).
Proof.
  induction 1 as [|p l catalog blocks Hl _ IH]; simpl; [reflexivity|].
  now rewrite map_app, (block_product_ids k p l Hl), IH.
Qed.

(** X2.  The events of the products follow one another: product 1 first, then
    product 2, and so on, each with as many events as asked for, and with
    one event (the [insert]) when fewer than two were asked for. *)
Theorem ledger_product_ids_in_blocks (db_name : string)
    (n_products n_txns_per_product : Z) (w w' : World F)
    (log : list (Event F)) :
  create_transactions_db db_name n_products n_txns_per_product w = (Ret tt, w') ->
  ledger w' db_name = Some log ->
  map product_id log =
  flat_map (fun pid => repeat pid (Z.to_nat (Z.max 1 n_txns_per_product)))
    (range 1 (n_products + 1)).
Proof.
  intros Hrun Hlog.
  destruct (generated_ledger_of_run _ _ _ _ _ _ Hrun Hlog)
    as (catalog & blocks & -> & Hmap & _ & Hblocks & _).
  now rewrite (blocks_product_ids _ _ _ Hblocks), Hmap.
Qed.

Lemma flat_map_repeat_length (m : nat) (l : list Z) :
  List.length (flat_map (fun pid => repeat pid m) l) = (List.length l * m)%nat.
Proof.
  induction l as [|x l IH]; simpl; [reflexivity|].
  now rewrite length_app, repeat_length, IH.
Qed.

Lemma range_length (a b : Z) : List.length (range a b) = Z.to_nat (b - a).
Proof. unfold range. now rewrite length_map, length_seq. Qed.

(** X3.  The ledger has [n_products] times [n_txns_per_product] rows; a
    negative product count counts as zero and an event count below one
    counts as one. *)
Theorem ledger_row_count (db_name : string)
    (n_products n_txns_per_product : Z) (w w' : World F)
    (log : list (Event F)) :
  create_transactions_db db_name n_products n_txns_per_product w = (Ret tt, w') ->
  ledger w' db_name = Some log ->
  Z.of_nat (List.length log) = Z.max 0 n_products * Z.max 1 n_txns_per_product.
Proof.
  intros Hrun Hlog.
  destruct (generated_ledger_of_run _ _ _ _ _ _ Hrun Hlog)
    as (catalog & blocks & -> & Hmap & _ & Hblocks & _).
  pose proof (blocks_product_ids _ _ _ Hblocks) as Hids.
  apply (f_equal (@List.length Z)) in Hids.
  rewrite Hmap, length_map, flat_map_repeat_length, range_length in Hids.
  rewrite Hids, Nat2Z.inj_mul. f_equal; lia.
Qed.

Lemma range_NoDup (a b : Z) : NoDup (range a b).
Proof.
  unfold range. apply Injective_map_NoDup; [|apply seq_NoDup].
  intros i j H. lia.
Qed.

Lemma NoDup_map_eq {A B} (f : A -> B) (l : list A) (x y : A) :
  NoDup (map f l) -> In x l -> In y l -> f x = f y -> x = y.
Proof.
  induction l as [|z l IH]; simpl; intros Hnd Hx Hy Hf; [contradiction|].
  inversion Hnd as [|? ? Hnotin Hnd']; subst.
  destruct Hx as [->|Hx], Hy as [->|Hy].
  - reflexivity.
  - exfalso. apply Hnotin. rewrite Hf. now apply in_map.
  - exfalso. apply Hnotin. rewrite <- Hf. now apply in_map.
  - now apply IH.
Qed.

(** Every stored row belongs to a catalog entry, and its note describes
    it. *)
Lemma in_blocks (k : Z) (catalog : list (product F))
    (blocks : list (list (Event F))) (e : Event F) :
  Forall2 (product_block k) catalog blocks ->
  In e (List.concat blocks) ->
  exists p, In p catalog /\ of_product p e /\ notes e = Some (describe e).
Proof.
  induction 1 as [|p l catalog blocks Hl _ IH]; simpl; [contradiction|].
  intros He. apply in_app_or in He as [He|He].
  - destruct Hl as (first & rest & -> & _ & _ & _ & _ & _ & Hrows).
    rewrite Forall_forall in Hrows. destruct (Hrows e He) as [Hp Hnote].
    exists p. split; [now left | now split].
  - destruct (IH He) as (q & Hq & Hrest). exists q. split; [now right | exact Hrest].
Qed.

(** X4.  The catalog attributes of a product never change: two events of the
    same product carry the same name, brand, category and color. *)
Theorem catalog_attributes_fixed_per_product (db_name : string)
    (n_products n_txns_per_product : Z) (w w' : World F)
    (log : list (Event F)) (e1 e2 : Event F) :
  create_transactions_db db_name n_products n_txns_per_product w = (Ret tt, w') ->
  ledger w' db_name = Some log ->
  In e1 log -> In e2 log -> product_id e1 = product_id e2 ->
  product_name e1 = product_name e2 /\ brand e1 = brand e2
  /\ category e1 = category e2 /\ color e1 = color e2.
Proof.
  intros Hrun Hlog H1 H2 Hpid.
  destruct (generated_ledger_of_run _ _ _ _ _ _ Hrun Hlog)
    as (catalog & blocks & -> & Hmap & _ & Hblocks & _).
  destruct (in_blocks _ _ _ _ Hblocks H1)
    as (p1 & Hp1 & (Hid1 & Hn1 & Hb1 & Hc1 & Hcol1) & _).
  destruct (in_blocks _ _ _ _ Hblocks H2)
    as (p2 & Hp2 & (Hid2 & Hn2 & Hb2 & Hc2 & Hcol2) & _).
  assert (p1 = p2) as <-.
  { apply (NoDup_map_eq p_pid catalog); try assumption.
    - rewrite Hmap. apply range_NoDup.
    - congruence. }
  repeat split; congruence.
Qed.

Lemma catalog_entry_words (p : product F) :
  catalog_entry p ->
  exists b c,
    In b brands /\ In c categories
    /\ p_name p = b +++ " " +++ c
    /\ (b <> "New Balance" -> p_brand p = b /\ p_category p = c)
    /\ (b = "New Balance" -> p_brand p = "New" /\ p_category p = "Balance").
Proof.
  intros (b & c & Hb & Hc & Hname & Hw0 & Hw1 & _).
  destruct p as [pid name brand0 category0 color0 price0]. simpl in *.
  exists b, c. split; [exact Hb|]. split; [exact Hc|]. split; [exact Hname|].
  rewrite Hname in Hw0, Hw1. clear Hname.
  unfold brands, categories in Hb, Hc. simpl in Hb, Hc.
  repeat (destruct Hb as [<-|Hb]); try contradiction;
    repeat (destruct Hc as [<-|Hc]); try contradiction;
    vm_compute in Hw0, Hw1;
    injection Hw0 as <-; injection Hw1 as <-;
    (split; [intros Hne; try (now split); now elim Hne
            | intros Heq; try discriminate Heq; now split]).
Qed.

(** X5.  [product_name] is a brand and a category of the lists, joined by a
    space, and [brand] and [category] are its first two words: they are
    that brand and that category, except for the brand "New Balance",
    whose rows carry the brand "New" and the category "Balance". *)
Theorem brand_and_category_are_words_of_name (db_name : string)
    (n_products n_txns_per_product : Z) (w w' : World F)
    (log : list (Event F)) (e : Event F) :
  create_transactions_db db_name n_products n_txns_per_product w = (Ret tt, w') ->
  ledger w' db_name = Some log ->
  In e log ->
  exists b c,
    In b brands /\ In c categories
    /\ product_name e = b +++ " " +++ c
    /\ nth_error (split (product_name e)) 0 = Some (brand e)
    /\ nth_error (split (product_name e)) 1 = Some (category e)
    /\ (b <> "New Balance" -> brand e = b /\ category e = c)
    /\ (b = "New Balance" -> brand e = "New" /\ category e = "Balance").
Proof.
  intros Hrun Hlog He.
  destruct (generated_ledger_of_run _ _ _ _ _ _ Hrun Hlog)
    as (catalog & blocks & -> & _ & Hentries & Hblocks & _).
  destruct (in_blocks _ _ _ _ Hblocks He)
    as (p & Hp & (_ & Hn & Hb & Hc & _) & _).
  rewrite Forall_forall in Hentries. specialize (Hentries p Hp).
  destruct (catalog_entry_words p Hentries)
    as (b & c & Hin_b & Hin_c & Hname & Hplain & Hnew).
  destruct Hentries as (_ & _ & _ & _ & _ & Hw0 & Hw1 & _).
  exists b, c. rewrite Hn, Hb, Hc.
  repeat (split; [assumption|]). exact Hnew.
Qed.

(** X7.  The note of every event is the text that [describe] reads off its
    action, quantity and price. *)
Theorem notes_describe_events (db_name : string)
    (n_products n_txns_per_product : Z) (w w' : World F)
    (log : list (Event F)) (e : Event F) :
  create_transactions_db db_name n_products n_txns_per_product w = (Ret tt, w') ->
  ledger w' db_name = Some log ->
  In e log ->
  notes e = Some (describe e).
Proof.
  intros Hrun Hlog He.
  destruct (generated_ledger_of_run _ _ _ _ _ _ Hrun Hlog)
    as (catalog & blocks & -> & _ & _ & Hblocks & _).
  now destruct (in_blocks _ _ _ _ Hblocks He) as (p & _ & _ & Hnote).
Qed.

(** ** Prices, event by event *)

Lemma price_in_effect_app (pid : Z) (a b : list (Event F)) :
  price_in_effect pid (a ++ b) =
  match price_in_effect pid b with
  | Some x => Some x
  | None => price_in_effect pid a
  end.
Proof.
  induction a as [|e a IH]; simpl.
  - now destruct (price_in_effect pid b).
  - rewrite IH. now destruct (price_in_effect pid b).
Qed.

Lemma price_in_effect_snoc (pid : Z) (seen : list (Event F)) (e : Event F) :
  product_id e = pid ->
  price_in_effect pid (seen ++ [e]) =
  match unit_price e with
  | Some x => Some x
  | None => price_in_effect pid seen
  end.
Proof.
  intros Hpid. rewrite price_in_effect_app. simpl.
  rewrite Hpid, Z.eqb_refl. reflexivity.
Qed.

Lemma sales_app (seen a b : list (Event F)) :
  sales_at_price_in_effect seen a ->
  sales_at_price_in_effect (seen ++ a) b ->
  sales_at_price_in_effect seen (a ++ b).
Proof.
  revert seen. induction a as [|e a IH]; intros seen Ha Hb; simpl.
  - now rewrite app_nil_r in Hb.
  - destruct Ha as [He Ha]. split; [exact He|].
    apply IH; [exact Ha|]. now rewrite <- app_assoc.
Qed.

(** Along the follow-ups of a product, the running price of the loop is
    the price in effect in the ledger. *)
Lemma chain_sales (pid : Z) (cp : F) (l : list (Event F)) :
  price_chain cp l ->
  Forall (fun e => product_id e = pid) l ->
  forall seen,
    price_in_effect pid seen = Some cp -> sales_at_price_in_effect seen l.
Proof.
  induction 1 as [cp|cp e l Ha Hp Hl IH|cp e l Ha Hp Hl IH
                  |cp cp' e l Ha Hp Hl IH];
    intros Hpid seen Hseen; simpl; [exact I| | |];
    inversion Hpid as [|? ? He Hrest]; subst;
    (split; [intros Hsale|
             apply IH; [exact Hrest|];
             rewrite (price_in_effect_snoc _ seen e eq_refl), Hp;
             try exact Hseen; reflexivity]).
  - rewrite Ha in Hsale. discriminate Hsale.
  - now rewrite Hp, Hseen.
  - rewrite Ha in Hsale. discriminate Hsale.
Qed.

Lemma block_sales (k : Z) (p : product F) (l seen : list (Event F)) :
  product_block k p l -> sales_at_price_in_effect seen l.
Proof.
  intros (first & rest & -> & Ha & Hp & _ & _ & Hchain & Hrows).
  inversion Hrows as [|? ? [(Hpid & _) _] Hrest]; subst.
  simpl. split; [intros Hsale; rewrite Ha in Hsale; discriminate Hsale|].
  apply (chain_sales (p_pid p) (p_base_price p)); [exact Hchain| |].
  - revert Hrest. apply Forall_impl. now intros e [(He & _) _].
  - now rewrite (price_in_effect_snoc _ seen first Hpid), Hp.
Qed.

Lemma blocks_sales (k : Z) (catalog : list (product F))
    (blocks : list (list (Event F))) (seen : list (Event F)) :
  Forall2 (product_block k) catalog blocks ->
  sales_at_price_in_effect seen (List.concat blocks).
Proof.
  intros H. revert seen.
  induction H as [|p l catalog blocks Hl _ IH]; intros seen; simpl;
    [exact I|].
  apply sales_app; [now apply (block_sales k p) | apply IH].
Qed.

Lemma sales_at (seen l l1 l2 : list (Event F)) (e : Event F) :
  sales_at_price_in_effect seen l ->
  l = l1 ++ e :: l2 ->
  action e = "sale" ->
  unit_price e = price_in_effect (product_id e) (seen ++ l1).
Proof.
  revert seen l. induction l1 as [|x l1 IH]; intros seen l Hl -> Hsale.
  - rewrite app_nil_r. destruct Hl as [He _]. now apply He.
  - destruct Hl as [_ Hl]. simpl in Hl.
    rewrite (IH (seen ++ [x]) _ Hl eq_refl Hsale).
    now rewrite <- app_assoc.
Qed.

(** X6.  Every sale records the price in effect: its [unit_price] is the
    [unit_price] of the most recent earlier event of the same product
    that has one (its [insert], a [price_update] or another sale). *)
Theorem sales_carry_price_in_effect (db_name : string)
    (n_products n_txns_per_product : Z) (w w' : World F)
    (log l1 l2 : list (Event F)) (e : Event F) :
  create_transactions_db db_name n_products n_txns_per_product w = (Ret tt, w') ->
  ledger w' db_name = Some log ->
  log = l1 ++ e :: l2 ->
  action e = "sale" ->
  unit_price e = price_in_effect (product_id e) l1 /\ unit_price e <> None.
Proof.
  intros Hrun Hlog Hsplit Hsale.
  destruct (generated_ledger_of_run _ _ _ _ _ _ Hrun Hlog)
    as (catalog & blocks & Hblocks_eq & _ & _ & Hblocks & Hshape).
  split.
  - rewrite Hblocks_eq in Hsplit.
    exact (sales_at [] _ l1 l2 e (blocks_sales _ _ _ [] Hblocks) Hsplit Hsale).
  - rewrite Forall_forall in Hshape.
    assert (He : In e log) by (rewrite Hsplit; apply in_or_app; right; now left).
    destruct (Hshape e He)
      as [(Ha & _)|[(Ha & _)|[(_ & _ & Hp)|(Ha & _)]]];
      [| |exact Hp|]; rewrite Hsale in Ha; discriminate Ha.
Qed.

End LedgerStructure.

(** ** What a run leaves outside the ledger *)

Section RunEffects.
Context {F : Type} {FO : FloatOps F} {RS : RandomSource F}.

(** X8.  A run that returns has closed its connection, printed its one line,
    and touched no store but its own. *)
Theorem create_transactions_db_effects (db_name : string)
    (n_products n_txns_per_product : Z) (w w' : World F) :
  (forall h, In h (open_conns w) -> (h < next_conn w)%nat) ->
  create_transactions_db db_name n_products n_txns_per_product w = (Ret tt, w') ->
  open_conns w' = open_conns w
  /\ stdout w' =
       stdout w ++ ["SQLite database '" +++ db_name
                    +++ "' created with a single 'transactions' table (event-sourced)."]
  /\ (forall path, path <> db_name -> files w' path = files w path)
  /\ can_open w' = can_open w.
Proof.
  intros Hwf Hrun.
  destruct (can_open w db_name) eqn:Hopen.
  - unfold create_transactions_db, bind, connect in Hrun. rewrite Hopen in Hrun.
    unfold drop_transactions, create_transactions, write_db, db_of, set_file
      in Hrun.
    simpl in Hrun. rewrite String.eqb_refl in Hrun. simpl in Hrun.
    unfold run_generator in Hrun. simpl in Hrun.
    destruct (generate n_products n_txns_per_product _) as [[u|e] g];
      simpl in Hrun; [|discriminate Hrun].
    injection Hrun as <-. simpl.
    assert (Hfresh : forall l, (forall h, In h l -> (h < next_conn w)%nat) ->
              List.filter (fun h => negb (Nat.eqb h (next_conn w))) l = l).
    { intros l Hl. induction l as [|h l IH]; simpl; [reflexivity|].
      assert (Hh : (h < next_conn w)%nat) by (apply Hl; now left).
      destruct (Nat.eqb h (next_conn w)) eqn:E;
        [apply Nat.eqb_eq in E; lia|].
      simpl. f_equal. apply IH. intros h' Hh'. apply Hl. now right. }
    rewrite Nat.eqb_refl. simpl.
    split; [now apply Hfresh|]. split; [reflexivity|]. split; [|reflexivity].
    intros path Hpath.
    assert (E : String.eqb path db_name = false) by now apply String.eqb_neq.
    rewrite E. destruct (files w db_name); [reflexivity|]. now rewrite E.
  - unfold create_transactions_db, bind, connect in Hrun.
    rewrite Hopen in Hrun. discriminate Hrun.
Qed.

End RunEffects.

(** * Further properties of the gateway *)

Section GatewayEffects.
Context {F : Type} {SE : SqlEngine F}.

(** X9.  When the engine answers the sanitized query with a frame,
    [execute_sql] returns that very frame. *)
Theorem execute_sql_passes_frame_through (query db_path : string)
    (w : World F) (df : DataFrame F) (db' : Database F) :
  can_open w db_path = true ->
  read_sql_query (sanitize query) (db_of w (mk_conn (next_conn w) db_path))
    = (Ret df, db') ->
  exists w', execute_sql query db_path w = (Ret df, w').
Proof.
  intros Hopen Hok.
  destruct (connect_opens db_path w Hopen) as (w1 & Hc & Hdb & _).
  unfold execute_sql, bind. rewrite Hc.
  unfold try_finally, try_except, pd_read_sql_query.
  rewrite Hdb, Hok. simpl. eexists. reflexivity.
Qed.

(** X10.  [execute_sql] raises in two cases only: the store cannot be opened
    (the error of [sqlite3.connect], raised before the [try]), or the
    engine fails with an exception that does not derive from
    [Exception]. *)
Theorem execute_sql_raises_only_outside_try (query db_path : string)
    (w w' : World F) (e : exn) :
  execute_sql query db_path w = (Raise e, w') ->
  (can_open w db_path = false
   /\ e = OperationalError "unable to open database file" /\ w' = w)
  \/ (can_open w db_path = true
      /\ is_Exception e = false
      /\ exists db',
           read_sql_query (sanitize query)
             (db_of w (mk_conn (next_conn w) db_path)) = (Raise e, db')).
Proof.
  intros Hrun. destruct (can_open w db_path) eqn:Hopen.
  - right. split; [reflexivity|].
    destruct (connect_opens db_path w Hopen) as (w1 & Hc & Hdb & _).
    unfold execute_sql, bind in Hrun. rewrite Hc in Hrun.
    unfold try_finally, try_except, pd_read_sql_query, close in Hrun.
    rewrite Hdb in Hrun.
    destruct (read_sql_query (sanitize query)
                (db_of w (mk_conn (next_conn w) db_path))) as [[df|e0] db'];
      [simpl in Hrun; discriminate Hrun|].
    destruct (is_Exception e0) eqn:Hexc; simpl in Hrun;
      [discriminate Hrun|].
    injection Hrun as <- _. split; [exact Hexc|]. now exists db'.
  - left. unfold execute_sql, bind in Hrun.
    rewrite (connect_refused db_path w Hopen) in Hrun.
    injection Hrun as <- <-. now repeat split.
Qed.

(** X11.  A call of [get_schema] that returns has closed the connection
    it opened, printed nothing and left every other store as it was.  At
    the path of a file, the store keeps its content, except that a store
    that did not exist now exists, empty. *)
Theorem get_schema_effects (db_path : string) (w w' : World F)
    (text : string) :
  (forall h, In h (open_conns w) -> (h < next_conn w)%nat) ->
  get_schema db_path w = (Ret text, w') ->
  open_conns w' = open_conns w
  /\ stdout w' = stdout w
  /\ (forall path, path <> db_path -> files w' path = files w path)
  /\ (file_path db_path = true ->
      files w' db_path =
        Some (match files w db_path with Some db => db | None => empty_db end)).
Proof.
  intros Hwf Hrun.
  destruct (can_open w db_path) eqn:Hopen.
  - unfold get_schema, bind, connect in Hrun. rewrite Hopen in Hrun.
    unfold table_info, close in Hrun.
    destruct (transactions _) in Hrun; simpl in Hrun;
      injection Hrun as _ <-; simpl;
      (split; [now apply filter_fresh|]);
      (split; [reflexivity|]);
      (split; [intros path Hpath; destruct (files w db_path); [reflexivity|];
               unfold set_file; now rewrite (proj2 (String.eqb_neq _ _) Hpath)|]);
      intros _;
      (destruct (files w db_path) eqn:E; [exact E|];
       unfold set_file; now rewrite String.eqb_refl).
  - unfold get_schema, bind in Hrun.
    rewrite (connect_refused db_path w Hopen) in Hrun. discriminate Hrun.
Qed.

End GatewayEffects.

(** * Further properties of the sanitizer *)

Lemma lstrip_idempotent (s : string) : lstrip (lstrip s) = lstrip s.
Proof.
  induction s as [|c s IH]; simpl; [reflexivity|].
  destruct (isspace c) eqn:E; [exact IH | simpl; now rewrite E].
Qed.

Lemma rstrip_nonempty_tail (c : ascii) (s : string) :
  rstrip (String c s) = String c s -> s <> "" -> rstrip s = s.
Proof.
  simpl. intros H Hne. destruct (rstrip s) as [|d r] eqn:E.
  - destruct (isspace c); [discriminate H|].
    injection H as H. now rewrite <- H in Hne.
  - now injection H as H.
Qed.

Lemma rstrip_lstrip (s : string) : rstrip s = s -> rstrip (lstrip s) = lstrip s.
Proof.
  induction s as [|c s IH]; intros H; [reflexivity|].
  cbn [lstrip]. destruct (isspace c) eqn:E; [|exact H].
  destruct s as [|d s]; [reflexivity|].
  apply IH. now apply (rstrip_nonempty_tail c).
Qed.

Lemma strip_idempotent (s : string) : strip (strip s) = strip s.
Proof.
  unfold strip.
  rewrite (rstrip_lstrip (rstrip s) (rstrip_idempotent s)).
  apply lstrip_idempotent.
Qed.

(** X12.  The sanitized query neither starts nor ends with a space. *)
Theorem sanitize_is_stripped (query : string) :
  lstrip (sanitize query) = sanitize query
  /\ rstrip (sanitize query) = sanitize query.
Proof.
  unfold sanitize, strip. split.
  - apply lstrip_idempotent.
  - apply rstrip_lstrip, rstrip_idempotent.
Qed.

(** X13.  A query that, stripped, neither starts with the fence tagged [sql]
    nor ends with a fence only loses the spaces around it. *)
Theorem sanitize_plain_query (query : string) :
  after_prefix "```sql" (strip query) = None ->
  endswith "```" (strip query) = false ->
  sanitize query = strip query.
Proof.
  intros Hpre Hsuf. unfold sanitize, removeprefix. rewrite Hpre.
  rewrite (removesuffix_absent _ _ Hsuf). apply strip_idempotent.
Qed.

Lemma lstrip_suffix (s : string) : exists pre, s = pre +++ lstrip s.
Proof.
  induction s as [|c s (pre & IH)]; [now exists ""|].
  simpl. destruct (isspace c).
  - exists (String c pre). simpl. now rewrite <- IH.
  - now exists "".
Qed.

Lemma rstrip_prefix (s : string) : exists post, s = rstrip s +++ post.
Proof.
  induction s as [|c s (post & IH)]; [now exists ""|].
  simpl. destruct (rstrip s) as [|d r].
  - destruct (isspace c).
    + now exists (String c s).
    + exists s. reflexivity.
  - exists post. simpl. simpl in IH. now rewrite <- IH.
Qed.

Lemma after_prefix_spec (p s r : string) :
  after_prefix p s = Some r -> s = p +++ r.
Proof.
  revert s. induction p as [|a p IH]; intros s H; simpl in H.
  - now injection H as ->.
  - destruct s as [|b s]; [discriminate H|].
    destruct (Ascii.eqb a b) eqn:E; [|discriminate H].
    apply Ascii.eqb_eq in E. subst b. simpl. now rewrite (IH s H).
Qed.

Lemma before_suffix_spec (suf s r : string) :
  before_suffix suf s = Some r -> s = r +++ suf.
Proof.
  revert r. induction s as [|c s IH]; intros r H.
  - simpl in H. destruct suf; simpl in H; [|discriminate H].
    now injection H as <-.
  - cbn [before_suffix] in H.
    destruct (String.eqb (String c s) suf) eqn:E.
    + apply String.eqb_eq in E. injection H as <-. now rewrite E.
    + destruct (before_suffix suf s) as [r'|]; [|discriminate H].
      simpl in H. injection H as <-. simpl. now rewrite (IH r' eq_refl).
Qed.

(** X14.  The sanitizer only cuts at the two ends: the sanitized query is a
    contiguous part of the raw text. *)
Theorem sanitize_is_part_of_query (query : string) :
  exists pre post, query = pre +++ sanitize query +++ post.
Proof.
  unfold sanitize, strip.
  set (q1 := rstrip query). set (q2 := lstrip q1).
  set (q3 := removeprefix "```sql" q2). set (q4 := removesuffix "```" q3).
  set (q5 := rstrip q4).
  destruct (rstrip_prefix query) as (post1 & H1). fold q1 in H1.
  destruct (lstrip_suffix q1) as (pre2 & H2). fold q2 in H2.
  assert (H3 : exists pre3, q2 = pre3 +++ q3).
  { unfold q3, removeprefix.
    destruct (after_prefix "```sql" q2) as [r|] eqn:E.
    - exists "```sql". now apply after_prefix_spec.
    - now exists "". }
  destruct H3 as (pre3 & H3).
  assert (H4 : exists post4, q3 = q4 +++ post4).
  { unfold q4, removesuffix.
    destruct (before_suffix "```" q3) as [r|] eqn:E.
    - exists "```". now apply before_suffix_spec.
    - exists "". now rewrite append_nil_r. }
  destruct H4 as (post4 & H4).
  destruct (rstrip_prefix q4) as (post5 & H5). fold q5 in H5.
  destruct (lstrip_suffix q5) as (pre6 & H6).
  exists (pre2 +++ pre3 +++ pre6), (post5 +++ post4 +++ post1).
  rewrite H1 at 1. rewrite H2 at 1. rewrite H3 at 1. rewrite H4 at 1.
  rewrite H5 at 1. rewrite H6 at 1.
  now rewrite !append_assoc.
Qed.

(** * The notebook card *)

Lemma replace_char_app (old : ascii) (new a b : string) :
  replace_char old new (a +++ b)
  = replace_char old new a +++ replace_char old new b.
Proof.
  induction a as [|c a IH]; simpl; [reflexivity|].
  destruct (Ascii.eqb c old); rewrite IH; [now rewrite append_assoc | reflexivity].
Qed.

(** The five replacements of [html.escape], done one after the other,
    amount to replacing every character on its own. *)
Lemma html_escape_chars (s : string) : html_escape s = escape_chars s.
Proof.
  unfold html_escape. induction s as [|c s IH]; [reflexivity|].
  cbn [replace_char escape_chars]. unfold escape_char.
  destruct (Ascii.eqb c "&") eqn:E1.
  { rewrite !replace_char_app, IH. reflexivity. }
  cbn [replace_char].
  destruct (Ascii.eqb c "<") eqn:E2.
  { rewrite !replace_char_app, IH. reflexivity. }
  cbn [replace_char].
  destruct (Ascii.eqb c ">") eqn:E3.
  { rewrite !replace_char_app, IH. reflexivity. }
  cbn [replace_char].
  destruct (Ascii.eqb c (ascii_of_nat 34)) eqn:E4.
  { rewrite !replace_char_app, IH. reflexivity. }
  cbn [replace_char].
  destruct (Ascii.eqb c "'") eqn:E5.
  { rewrite IH. reflexivity. }
  rewrite IH. reflexivity.
Qed.

Lemma has_markup_app (a b : string) :
  has_markup (a +++ b) = has_markup a || has_markup b.
Proof.
  induction a as [|c a IH]; simpl; [reflexivity|].
  rewrite IH. now rewrite !orb_assoc.
Qed.

Lemma escape_chars_no_markup (s : string) : has_markup (escape_chars s) = false.
Proof.
  induction s as [|c s IH]; [reflexivity|].
  cbn [escape_chars]. rewrite has_markup_app, IH, orb_false_r.
  unfold escape_char.
  destruct (Ascii.eqb c "&") eqn:E1; [reflexivity|].
  destruct (Ascii.eqb c "<") eqn:E2; [reflexivity|].
  destruct (Ascii.eqb c ">") eqn:E3; [reflexivity|].
  destruct (Ascii.eqb c (ascii_of_nat 34)) eqn:E4; [reflexivity|].
  destruct (Ascii.eqb c "'") eqn:E5; [reflexivity|].
  simpl. now rewrite E2, E3, E4, E5.
Qed.

(** Two characters whose replacements start two equal texts are the same
    character, and the rests of the texts are equal. *)
Lemma escape_char_cancel (c1 c2 : ascii) (x y : string) :
  escape_char c1 +++ x = escape_char c2 +++ y -> c1 = c2 /\ x = y.
Proof.
  unfold escape_char.
  destruct (Ascii.eqb c1 "&") eqn:A1;
    [apply Ascii.eqb_eq in A1|
     destruct (Ascii.eqb c1 "<") eqn:A2;
     [apply Ascii.eqb_eq in A2|
      destruct (Ascii.eqb c1 ">") eqn:A3;
      [apply Ascii.eqb_eq in A3|
       destruct (Ascii.eqb c1 (ascii_of_nat 34)) eqn:A4;
       [apply Ascii.eqb_eq in A4|
        destruct (Ascii.eqb c1 "'") eqn:A5;
        [apply Ascii.eqb_eq in A5|]]]]];
  (destruct (Ascii.eqb c2 "&") eqn:B1;
    [apply Ascii.eqb_eq in B1|
     destruct (Ascii.eqb c2 "<") eqn:B2;
     [apply Ascii.eqb_eq in B2|
      destruct (Ascii.eqb c2 ">") eqn:B3;
      [apply Ascii.eqb_eq in B3|
       destruct (Ascii.eqb c2 (ascii_of_nat 34)) eqn:B4;
       [apply Ascii.eqb_eq in B4|
        destruct (Ascii.eqb c2 "'") eqn:B5;
        [apply Ascii.eqb_eq in B5|]]]]]);
  subst; simpl; intros H;
  try discriminate H;
  try (injection H as H; subst; now split);
  try (injection H as Hc H; subst;
       first [ now rewrite Ascii.eqb_refl in B1
             | now rewrite Ascii.eqb_refl in A1
             | now split ]).
Qed.

Lemma escape_chars_injective (s1 s2 : string) :
  escape_chars s1 = escape_chars s2 -> s1 = s2.
Proof.
  revert s2. induction s1 as [|c1 s1 IH]; intros [|c2 s2] H.
  - reflexivity.
  - exfalso. simpl in H. unfold escape_char in H.
    repeat (destruct (Ascii.eqb c2 _) in H); discriminate H.
  - exfalso. simpl in H. unfold escape_char in H.
    repeat (destruct (Ascii.eqb c1 _) in H); discriminate H.
  - simpl in H. apply escape_char_cancel in H as [-> H].
    now rewrite (IH s2 H).
Qed.

Lemma append_cancel_l (a x y : string) : a +++ x = a +++ y -> x = y.
Proof.
  induction a as [|c a IH]; simpl; intros H; [exact H|].
  injection H as H. now apply IH.
Qed.

Lemma append_cancel_r (x y b : string) : x +++ b = y +++ b -> x = y.
Proof.
  revert y. induction x as [|c x IH]; intros [|d y] H.
  - reflexivity.
  - exfalso. apply (f_equal String.length) in H.
    simpl in H. rewrite length_append in H. lia.
  - exfalso. apply (f_equal String.length) in H.
    simpl in H. rewrite length_append in H. lia.
  - simpl in H. injection H as -> H. now rewrite (IH y H).
Qed.

Section PrintHtmlProperties.
Context {NB : Notebook}.

(** X15.  A text, or a value that is neither a text, a frame nor a series, is
    displayed escaped inside [<pre><code>]: whatever it holds, the card
    has no angle bracket and no quote where the text goes.  Nothing is
    read, nothing is raised, one card is displayed, and an empty title
    adds nothing to it, like no title. *)
Theorem print_html_escapes_text (s : string) (other is_image : bool)
    (title : option string) (sh : Shell) :
  other = true \/ is_image = false ->
  exists title_html,
    print_html (if other then COther s else CStr s) title is_image sh
    = (Ret tt,
       mk_shell (file_bytes sh)
         (displayed sh
          ++ [css +++ ("<div class=" +++ dq +++ "pretty-card" +++ dq +++ ">")
              +++ title_html
              +++ ("<pre><code>" +++ html_escape s +++ "</code></pre>")
              +++ "</div>"]))
    /\ has_markup (html_escape s) = false
    /\ (title = None \/ title = Some "" -> title_html = "").
Proof.
  intros Hkind.
  exists (match title with
          | Some (String a t) =>
              "<div class=" +++ dq +++ "pretty-title" +++ dq +++ ">"
              +++ String a t +++ "</div>"
          | _ => ""
          end).
  split; [|split].
  - unfold print_html, bind, display, ret.
    destruct other.
    + destruct is_image; cbn [fst snd]; now rewrite !append_assoc.
    + destruct Hkind as [H|H]; [discriminate H|]. rewrite H.
      cbn [fst snd]. now rewrite !append_assoc.
  - rewrite html_escape_chars. apply escape_chars_no_markup.
  - intros [H|H]; rewrite H; reflexivity.
Qed.

(** The card of a text is the text, escaped, between two pieces that do
    not depend on it. *)
Lemma print_html_text_card (title : option string) (sh : Shell) :
  exists pre post,
    forall s,
      print_html (CStr s) title false sh
      = (Ret tt,
         mk_shell (file_bytes sh)
           (displayed sh ++ [pre +++ html_escape s +++ post])).
Proof.
  exists (css +++ ("<div class=" +++ dq +++ "pretty-card" +++ dq +++ ">")
          +++ match title with
              | Some (String a t) =>
                  "<div class=" +++ dq +++ "pretty-title" +++ dq +++ ">"
                  +++ String a t +++ "</div>"
              | _ => ""
              end
          +++ "<pre><code>"),
    ("</code></pre>" +++ "</div>").
  intros s. unfold print_html, bind, display, ret. cbn [fst snd].
  now rewrite !append_assoc.
Qed.

(** X16.  The escaping loses nothing: two texts that are displayed as the same
    card, under the same title, are the same text. *)
Theorem print_html_shows_texts_apart (s1 s2 : string) (title : option string)
    (sh sh1 sh2 : Shell) :
  print_html (CStr s1) title false sh = (Ret tt, sh1) ->
  print_html (CStr s2) title false sh = (Ret tt, sh2) ->
  displayed sh1 = displayed sh2 ->
  s1 = s2.
Proof.
  destruct (print_html_text_card title sh) as (pre & post & Hcard).
  rewrite !Hcard. intros H1 H2 Hd.
  injection H1 as <-. injection H2 as <-. cbn [displayed] in Hd.
  apply app_inv_head in Hd. injection Hd as Hd.
  apply append_cancel_l, append_cancel_r in Hd.
  rewrite !html_escape_chars in Hd. now apply escape_chars_injective.
Qed.

End PrintHtmlProperties.

(** * [ensure_execute_python_tags] *)

Lemma contains_of_prefix (sub s r : string) :
  after_prefix sub s = Some r -> contains sub s = true.
Proof. intros H. destruct s; simpl; now rewrite H. Qed.

Lemma lstrip_append_kept (a b : string) :
  lstrip b = b -> lstrip (a +++ b) = lstrip a +++ b.
Proof.
  intros Hb. induction a as [|c a IH]; simpl; [exact Hb|].
  now destruct (isspace c).
Qed.

(** Stripping the two ends can be done in either order. *)
Lemma rstrip_lstrip_commute (s : string) : rstrip (lstrip s) = lstrip (rstrip s).
Proof.
  induction s as [|c s IH]; [reflexivity|].
  cbn [lstrip rstrip]. destruct (isspace c) eqn:E.
  - rewrite IH. destruct (rstrip s) as [|d r]; [reflexivity|].
    cbn [lstrip]. now rewrite E.
  - cbn [rstrip]. destruct (rstrip s) as [|d r];
      rewrite ?E; cbn [lstrip]; now rewrite ?E.
Qed.

Lemma strip_append_line (body : string) :
  rstrip (lstrip (body +++ nl)) = strip body.
Proof.
  rewrite rstrip_lstrip_commute, rstrip_append. reflexivity.
Qed.

Lemma stripped_has_no_final_line_feed (suf t : string) :
  rstrip t = t -> before_suffix (suf +++ nl) t = None.
Proof.
  intros Hr. destruct (before_suffix (suf +++ nl) t) as [b|] eqn:E;
    [|reflexivity].
  exfalso. apply before_suffix_spec in E.
  rewrite E in Hr. rewrite <- append_assoc in Hr.
  rewrite (rstrip_append (b +++ suf) nl) in Hr. simpl in Hr.
  pose proof (rstrip_prefix (b +++ suf)) as (post & Hpost).
  apply (f_equal String.length) in Hr.
  apply (f_equal String.length) in Hpost.
  rewrite !length_append in *. simpl in Hr. lia.
Qed.

(** X17.  Whatever the text, the result holds the opening tag. *)
Theorem ensure_execute_python_tags_always_tagged (text : string) :
  contains "<execute_python>" (ensure_execute_python_tags text) = true.
Proof.
  unfold ensure_execute_python_tags.
  destruct (contains "<execute_python>" (strip (sub_fences (strip text))))
    eqn:E; cbn [negb].
  - exact E.
  - apply (contains_of_prefix _ _
             (nl +++ strip (sub_fences (strip text)) +++ nl
              +++ "</execute_python>")).
    apply after_prefix_append.
Qed.

(** X18.  Code in a fence, with the tag [python] or without a tag and with
    spaces allowed around the whole, comes back as its body, stripped,
    between the two tags, provided the body does not hold the opening
    tag already. *)
Theorem ensure_execute_python_tags_unwraps_fence
    (ws1 ws2 lang body : string) :
  all_space ws1 = true -> all_space ws2 = true ->
  lang = "" \/ lang = "python" ->
  contains "<execute_python>" (strip body) = false ->
  ensure_execute_python_tags
    (ws1 +++ ("```" +++ lang +++ nl +++ body +++ nl +++ "```") +++ ws2)
  = "<execute_python>" +++ nl +++ strip body +++ nl +++ "</execute_python>".
Proof.
  intros H1 H2 Hlang Hbody. unfold ensure_execute_python_tags.
  assert (Hstrip :
    strip (ws1 +++ ("```" +++ lang +++ nl +++ body +++ nl +++ "```") +++ ws2)
    = "```" +++ lang +++ nl +++ body +++ nl +++ "```").
  { apply strip_padded; try assumption.
    - replace ("```" +++ lang +++ nl +++ body +++ nl +++ "```")
        with (("```" +++ lang +++ nl +++ body +++ nl) +++ "```")
        by (now rewrite !append_assoc).
      now apply rstrip_append_kept.
    - reflexivity.
    - discriminate. }
  rewrite Hstrip.
  assert (Hsub :
    sub_fences ("```" +++ lang +++ nl +++ body +++ nl +++ "```")
    = rstrip (lstrip (body +++ nl))).
  { unfold sub_fences. rewrite after_prefix_append.
    assert (Hlang' : removeprefix "python" (lang +++ nl +++ body +++ nl +++ "```")
                     = nl +++ body +++ nl +++ "```").
    { destruct Hlang as [-> | ->];
        [reflexivity | apply removeprefix_append]. }
    rewrite Hlang'.
    replace (lstrip (nl +++ body +++ nl +++ "```"))
      with (lstrip (body +++ nl) +++ "```").
    - unfold sub_closing_fence. now rewrite before_suffix_append.
    - change (lstrip (nl +++ body +++ nl +++ "```"))
        with (lstrip (body +++ nl +++ "```")).
      rewrite <- append_assoc. symmetry. now apply lstrip_append_kept. }
  rewrite Hsub, strip_append_line, strip_idempotent, Hbody. reflexivity.
Qed.

(** X19.  A text that holds the opening tag and, stripped, has no fence at
    either end only loses the spaces around it. *)
Theorem ensure_execute_python_tags_keeps_tagged_text (text : string) :
  contains "<execute_python>" (strip text) = true ->
  after_prefix "```" (strip text) = None ->
  endswith "```" (strip text) = false ->
  ensure_execute_python_tags text = strip text.
Proof.
  intros Htag Hpre Hsuf. unfold ensure_execute_python_tags, sub_fences.
  rewrite Hpre. unfold sub_closing_fence.
  unfold endswith in Hsuf.
  destruct (before_suffix "```" (strip text)); [discriminate Hsuf|].
  rewrite (stripped_has_no_final_line_feed "```" (strip text)).
  - now rewrite strip_idempotent, Htag.
  - unfold strip. apply rstrip_lstrip, rstrip_idempotent.
Qed.

(** * [parse_input] *)

Lemma first_assistant_text_app (a b : list message) :
  Forall (fun m => assistant_text m = None) a ->
  first_assistant_text (a ++ b) = first_assistant_text b.
Proof.
  induction 1 as [|m a Hm _ IH]; simpl; [reflexivity | now rewrite Hm].
Qed.

Lemma first_assistant_text_found (l : list message) (c : string) :
  first_assistant_text l = Some c ->
  exists a m b,
    l = a ++ m :: b
    /\ Forall (fun x => assistant_text x = None) a
    /\ assistant_text m = Some c.
Proof.
  induction l as [|m l IH]; simpl; intros H; [discriminate H|].
  destruct (assistant_text m) as [c'|] eqn:E.
  - injection H as ->. exists [], m, l. now repeat split.
  - destruct (IH H) as (a & m' & b & -> & Ha & Hm').
    exists (m :: a), m', b. repeat split; [now constructor | exact Hm'].
Qed.

Lemma first_assistant_text_none (l : list message) :
  first_assistant_text l = None <->
  Forall (fun m => assistant_text m = None) l.
Proof.
  induction l as [|m l IH]; simpl.
  - split; [constructor | reflexivity].
  - destruct (assistant_text m) eqn:E.
    + split; [discriminate|]. intros H. inversion H; subst. congruence.
    + rewrite IH. split; [now constructor | intros H; now inversion H].
Qed.

(** X20.  On a list of messages, [parse_input] returns [c] exactly when [c] is
    the content, not empty, of an assistant message after which no
    message is an assistant message with a content: the last one
    counts. *)
Theorem parse_input_returns_last_assistant_text (ms : list message)
    (c : string) :
  parse_input (Messages ms) = Ret c <->
  exists before m after,
    ms = before ++ m :: after
    /\ role m = Some "assistant" /\ content_of m = Some c /\ c <> ""
    /\ Forall (fun x => assistant_text x = None) after.
Proof.
  assert (Hat : forall m, assistant_text m = Some c <->
            role m = Some "assistant" /\ content_of m = Some c /\ c <> "").
  { intros [r ct]. unfold assistant_text. simpl. split.
    - destruct r as [r|]; [|discriminate].
      destruct ct as [[|a t]|]; try discriminate.
      destruct (String.eqb r "assistant") eqn:E; [|discriminate].
      apply String.eqb_eq in E. intros H. injection H as <-.
      now repeat split; subst.
    - intros (-> & -> & Hne). destruct c as [|a t]; [contradiction|].
      reflexivity. }
  unfold parse_input. split.
  - destruct (first_assistant_text (rev ms)) as [c'|] eqn:E; [|discriminate].
    intros H. injection H as ->.
    destruct (first_assistant_text_found _ _ E) as (a & m & b & Hrev & Ha & Hm).
    exists (rev b), m, (rev a).
    split.
    + rewrite <- (rev_involutive ms), Hrev, rev_app_distr. simpl.
      now rewrite <- app_assoc.
    + apply Hat in Hm. destruct Hm as (Hr & Hc & Hne).
      repeat split; try assumption. now apply Forall_rev.
  - intros (before & m & after & -> & Hr & Hc & Hne & Hafter).
    rewrite rev_app_distr. simpl. rewrite <- app_assoc.
    rewrite first_assistant_text_app by now apply Forall_rev.
    simpl. now rewrite (proj2 (Hat m) (conj Hr (conj Hc Hne))).
Qed.

(** X21.  On a list of messages, [parse_input] raises exactly when no message
    is an assistant message with a content that is not empty (so on the
    empty list), and then it raises the [ValueError] of the source. *)
Theorem parse_input_raises_without_assistant_text (ms : list message) :
  (Forall (fun m => assistant_text m = None) ms <->
   parse_input (Messages ms)
   = Raise (ValueError "No assistant text found in messages."))
  /\ (forall e, parse_input (Messages ms) = Raise e ->
        e = ValueError "No assistant text found in messages.").
Proof.
  unfold parse_input. split; [split|].
  - intros H. apply Forall_rev in H.
    now rewrite (proj2 (first_assistant_text_none _) H).
  - destruct (first_assistant_text (rev ms)) eqn:E; [discriminate|].
    intros _. apply first_assistant_text_none in E.
    apply Forall_rev in E. now rewrite rev_involutive in E.
  - intros e. destruct (first_assistant_text (rev ms)); [discriminate|].
    intros H. now injection H as <-.
Qed.

(** * The further properties at concrete inputs *)

Lemma pair_of_fst {A B : Type} (p : A * B) (a : A) :
  fst p = a -> p = (a, snd p).
Proof. intros <-. apply surjective_pairing. Qed.

Lemma sample_run :
  @create_transactions_db Q exact_floats lcg "products.db" 2 4
    (empty_world "2025-01-01 00:00:00") = (Ret tt, sample_world).
Proof.
  unfold sample_world. apply pair_of_fst. vm_compute. reflexivity.
Qed.

Lemma sample_ledger : ledger sample_world "products.db" = Some sample_log.
Proof. vm_compute. reflexivity. Qed.


Lemma ledger_product_ids_in_blocks_witness :
  map product_id sample_log = [1; 1; 1; 1; 2; 2; 2; 2].
Proof.
  exact (@ledger_product_ids_in_blocks Q exact_floats lcg lcg_in_range
           "products.db" 2 4 _ _ _ sample_run sample_ledger).
Defined.

Lemma ledger_row_count_witness : Z.of_nat (List.length sample_log) = 8.
Proof.
  exact (@ledger_row_count Q exact_floats lcg lcg_in_range
           "products.db" 2 4 _ _ _ sample_run sample_ledger).
Defined.

Lemma sample_event_in_log (i : nat) : (i < 8)%nat -> In (sample_event i) sample_log.
Proof.
  intros Hi. do 8 (destruct i as [|i]; [vm_compute; tauto|]). lia.
Qed.

Lemma catalog_attributes_fixed_per_product_witness :
  product_name (sample_event 4) = product_name (sample_event 7)
  /\ brand (sample_event 4) = brand (sample_event 7)
  /\ category (sample_event 4) = category (sample_event 7)
  /\ color (sample_event 4) = color (sample_event 7).
Proof.
  apply (@catalog_attributes_fixed_per_product Q exact_floats lcg lcg_in_range
           "products.db" 2 4 _ _ _ _ _ sample_run sample_ledger).
  - apply sample_event_in_log. lia.
  - apply sample_event_in_log. lia.
  - vm_compute. reflexivity.
Defined.

Lemma brand_and_category_are_words_of_name_witness :
  exists b c,
    In b brands /\ In c categories
    /\ product_name (sample_event 0) = b +++ " " +++ c
    /\ nth_error (split (product_name (sample_event 0))) 0
       = Some (brand (sample_event 0))
    /\ nth_error (split (product_name (sample_event 0))) 1
       = Some (category (sample_event 0))
    /\ (b <> "New Balance" ->
        brand (sample_event 0) = b /\ category (sample_event 0) = c)
    /\ (b = "New Balance" ->
        brand (sample_event 0) = "New" /\ category (sample_event 0) = "Balance").
Proof.
  apply (@brand_and_category_are_words_of_name Q exact_floats lcg lcg_in_range
           "products.db" 2 4 _ _ _ _ sample_run sample_ledger).
  apply sample_event_in_log. lia.
Defined.

Lemma sales_carry_price_in_effect_witness :
  unit_price (sample_event 1)
  = price_in_effect (product_id (sample_event 1)) (firstn 1 sample_log)
  /\ unit_price (sample_event 1) <> None.
Proof.
  apply (@sales_carry_price_in_effect Q exact_floats lcg lcg_in_range
           "products.db" 2 4 _ _ sample_log (firstn 1 sample_log)
           (skipn 2 sample_log) (sample_event 1) sample_run sample_ledger).
  - vm_compute. reflexivity.
  - vm_compute. reflexivity.
Defined.

Lemma notes_describe_events_witness :
  notes (sample_event 2) = Some (describe (sample_event 2)).
Proof.
  apply (@notes_describe_events Q exact_floats lcg lcg_in_range
           "products.db" 2 4 _ _ _ _ sample_run sample_ledger).
  apply sample_event_in_log. lia.
Defined.

Lemma create_transactions_db_effects_witness :
  open_conns sample_world = []
  /\ stdout sample_world
     = ["SQLite database 'products.db' created with a single 'transactions' table (event-sourced)."]
  /\ (forall path, path <> "products.db" -> files sample_world path = None)
  /\ can_open sample_world = can_open (empty_world "2025-01-01 00:00:00").
Proof.
  exact (@create_transactions_db_effects Q exact_floats lcg "products.db" 2 4
           (empty_world "2025-01-01 00:00:00") sample_world
           (fun h (H : In h []) => match H with end) sample_run).
Defined.

Lemma execute_sql_passes_frame_through_witness :
  exists w', execute_sql "```sql SELECT 1 ```" "products.db"
               (empty_world "2025-01-01 00:00:00")
             = (Ret (mk_df ["1"] [[VInt 1]]), w').
Proof.
  exact (execute_sql_passes_frame_through "```sql SELECT 1 ```" "products.db"
           (empty_world "2025-01-01 00:00:00") (mk_df ["1"] [[VInt 1]])
           empty_db eq_refl eq_refl).
Defined.

Lemma execute_sql_raises_only_outside_try_witness :
  (can_open closed_world "products.db" = false
   /\ OperationalError "unable to open database file"
      = OperationalError "unable to open database file"
   /\ closed_world = closed_world)
  \/ (can_open closed_world "products.db" = true
      /\ is_Exception (OperationalError "unable to open database file") = false
      /\ exists db',
           read_sql_query (sanitize "SELECT 1")
             (db_of closed_world (mk_conn (next_conn closed_world) "products.db"))
           = (Raise (OperationalError "unable to open database file"), db')).
Proof.
  exact (execute_sql_raises_only_outside_try "SELECT 1" "products.db"
           closed_world closed_world
           (OperationalError "unable to open database file") eq_refl).
Defined.

Lemma get_schema_effects_witness :
  open_conns (snd (get_schema "new.db" (empty_world "2025-01-01 00:00:00")))
  = []
  /\ stdout (snd (get_schema "new.db" (empty_world "2025-01-01 00:00:00")))
     = []
  /\ (forall path, path <> "new.db" ->
        files (snd (get_schema "new.db" (empty_world "2025-01-01 00:00:00")))
          path = None)
  /\ (file_path "new.db" = true ->
      files (snd (get_schema "new.db" (empty_world "2025-01-01 00:00:00")))
        "new.db" = Some empty_db).
Proof.
  exact (get_schema_effects (F := Q) "new.db"
           (empty_world "2025-01-01 00:00:00") _
           ("table name: transactions" +++ nl)
           (fun h (H : In h []) => match H with end) eq_refl).
Defined.

Lemma sanitize_plain_query_witness :
  sanitize "  SELECT 1  " = strip "  SELECT 1  ".
Proof. exact (sanitize_plain_query "  SELECT 1  " eq_refl eq_refl). Defined.

Lemma print_html_escapes_text_witness :
  exists title_html,
    print_html (CStr "<b>1 & 2</b>") (Some "Result") false empty_shell
    = (Ret tt,
       mk_shell (file_bytes empty_shell)
         (displayed empty_shell
          ++ [css +++ ("<div class=" +++ dq +++ "pretty-card" +++ dq +++ ">")
              +++ title_html
              +++ ("<pre><code>" +++ html_escape "<b>1 & 2</b>"
                   +++ "</code></pre>")
              +++ "</div>"]))
    /\ has_markup (html_escape "<b>1 & 2</b>") = false
    /\ (Some "Result" = None \/ Some "Result" = Some "" -> title_html = "").
Proof.
  exact (print_html_escapes_text "<b>1 & 2</b>" false false (Some "Result")
           empty_shell (or_intror eq_refl)).
Defined.

Lemma print_html_shows_texts_apart_witness : "a < b" = "a < b".
Proof.
  exact (print_html_shows_texts_apart "a < b" "a < b" None empty_shell
           _ _ eq_refl eq_refl eq_refl).
Defined.

Lemma ensure_execute_python_tags_unwraps_fence_witness :
  ensure_execute_python_tags
    (" " +++ ("```" +++ "python" +++ nl +++ "print(1)" +++ nl +++ "```") +++ nl)
  = "<execute_python>" +++ nl +++ strip "print(1)" +++ nl +++ "</execute_python>".
Proof.
  exact (ensure_execute_python_tags_unwraps_fence " " nl "python" "print(1)"
           eq_refl eq_refl (or_intror eq_refl) eq_refl).
Defined.

Lemma ensure_execute_python_tags_keeps_tagged_text_witness :
  ensure_execute_python_tags " <execute_python>x = 1</execute_python> "
  = strip " <execute_python>x = 1</execute_python> ".
Proof.
  exact (ensure_execute_python_tags_keeps_tagged_text
           " <execute_python>x = 1</execute_python> " eq_refl eq_refl eq_refl).
Defined.
